(** * Secure path resolution of the video-downloader MCP server

    A shallow embedding of the three classes at the top of [server.py]
    ([SecureConfigManager], [PathValidator], [LocationManager]) and the
    properties of the path-resolution subsystem proved over it, together
    with the loop of [WebpageAnalyzer.extract_video_patterns] that
    collects the matched URLs.

    Conventions of the embedding.
    - A Python [str] is a [string]: the sequence of its code points, for
      code points below 256.
    - A [dict] is a [gmap] with [string] keys; where the code depends on
      the insertion order of the keys, that order is kept beside the map.
    - The triple [(is_valid, path, error_message)] the validators return is
      the type [Result]: the message is kept as a tag carrying the values
      the source interpolates into it.
    - The operating system ([os.path.expanduser], [os.path.realpath],
      [os.makedirs], [os.access]) is an explicit record [OS]; the pure
      functions of [posixpath] are transcribed from the library. *)

From Stdlib Require Import ZArith Ascii String List Bool Lia.
From stdpp Require Import base option gmap strings list fin_maps.

Local Open Scope string_scope.
#[local] Arguments String.append !s1 s2 : simpl nomatch.

(** ** Python [str] operations *)

Module PyStr.

(** [str.lower] on one code point below 256: the ASCII capitals, and the
    Latin-1 capitals U+00C0..U+00DE without the multiplication sign U+00D7,
    move up by 32; every other code point is its own lower case. *)
Definition lower_char (c : ascii) : ascii :=
  let n := N_of_ascii c in
  if ((65 <=? n) && (n <=? 90))%N then ascii_of_N (n + 32)
  else if ((192 <=? n) && (n <=? 222) && negb (n =? 215))%N
       then ascii_of_N (n + 32)
  else c.

(** [s.lower()] *)
Fixpoint lower (s : string) : string :=
  match s with
  | EmptyString => EmptyString
  | String c s' => String (lower_char c) (lower s')
  end.

(** [s.startswith(p)] *)
Fixpoint startswith (s p : string) {struct p} : bool :=
  match p, s with
  | EmptyString, _ => true
  | String _ _, EmptyString => false
  | String a p', String b s' => Ascii.eqb a b && startswith s' p'
  end.

(** [s.endswith(p)] *)
Definition endswith (s p : string) : bool :=
  let n := String.length s in
  let k := String.length p in
  (k <=? n)%nat && String.eqb (substring (n - k) k s) p.

(** [pat in s] *)
Fixpoint contains (pat s : string) : bool :=
  startswith s pat ||
  match s with
  | EmptyString => false
  | String _ s' => contains pat s'
  end.

(** [s.replace(old, new)] for one-character [old] and [new]. *)
Fixpoint replace (old new : ascii) (s : string) : string :=
  match s with
  | EmptyString => EmptyString
  | String c s' =>
      String (if Ascii.eqb c old then new else c) (replace old new s')
  end.

(** [s.split(sep)] for a one-character separator: never the empty list. *)
Fixpoint split (sep : ascii) (s : string) : list string :=
  match s with
  | EmptyString => [EmptyString]
  | String c s' =>
      if Ascii.eqb c sep then EmptyString :: split sep s'
      else match split sep s' with
           | h :: t => String c h :: t
           | [] => [String c EmptyString]
           end
  end.

(** [s.rfind(c)]: the highest index holding [c], or -1. *)
Fixpoint rfind (c : ascii) (s : string) : Z :=
  match s with
  | EmptyString => (-1)%Z
  | String a s' =>
      let r := rfind c s' in
      if (0 <=? r)%Z then (r + 1)%Z
      else if Ascii.eqb a c then 0%Z else (-1)%Z
  end.

(** [s.find(c, start)] for a start index within the string, or -1. *)
Fixpoint find_from (c : ascii) (start : nat) (s : string) : Z :=
  match s with
  | EmptyString => (-1)%Z
  | String a s' =>
      match start with
      | O => if Ascii.eqb a c then 0%Z
             else let r := find_from c O s' in
                  if (0 <=? r)%Z then (r + 1)%Z else (-1)%Z
      | S k => let r := find_from c k s' in
               if (0 <=? r)%Z then (r + 1)%Z else (-1)%Z
      end
  end.

(** The slices [s[i:]] and [s[:i]] for an index [0 <= i]. *)
Definition slice_from (i : Z) (s : string) : string :=
  substring (Z.to_nat i) (String.length s - Z.to_nat i) s.

Definition slice_to (i : Z) (s : string) : string :=
  substring 0 (Z.to_nat i) s.

(** [s.lstrip(c)] for a one-character argument. *)
Fixpoint lstrip (c : ascii) (s : string) : string :=
  match s with
  | EmptyString => EmptyString
  | String a s' => if Ascii.eqb a c then lstrip c s' else s
  end.

(** [s.rstrip(c)] for a one-character argument. *)
Fixpoint rstrip (c : ascii) (s : string) : string :=
  match s with
  | EmptyString => EmptyString
  | String a s' =>
      match rstrip c s' with
      | EmptyString => if Ascii.eqb a c then EmptyString
                       else String a EmptyString
      | r => String a r
      end
  end.

(** [sep.join(parts)] *)
Fixpoint join_with (sep : string) (parts : list string) : string :=
  match parts with
  | [] => EmptyString
  | [p] => p
  | p :: rest => p ++ sep ++ join_with sep rest
  end.

(** [len(s)] *)
Definition len (s : string) : Z := Z.of_nat (String.length s).

End PyStr.

(** ** [posixpath]: the pure path functions the validator calls *)

Module PosixPath.
Import PyStr.

Definition sep : ascii := "/"%char.
Definition extsep : ascii := "."%char.

(** [os.path.isabs(s)]: [s.startswith('/')] *)
Definition isabs (s : string) : bool := startswith s "/".

(** [os.path.join(a, b)] with one trailing argument. *)
Definition join (a b : string) : string :=
  if startswith b "/" then b
  else if String.eqb a "" || endswith a "/" then a ++ b
  else a ++ "/" ++ b.

(** [os.path.basename(p)]: [p[p.rfind('/') + 1:]] *)
Definition basename (p : string) : string :=
  slice_from (rfind sep p + 1) p.

(** The loop of [genericpath._splitext] that skips leading dots: it looks
    at the indices from [i] up to [dotIndex] and answers whether one of
    them holds something else than a dot. [n] bounds the iterations. *)
Fixpoint has_non_dot (n : nat) (i : Z) (p : string) : bool :=
  match n with
  | O => false
  | S k =>
      if negb (String.eqb (substring (Z.to_nat i) 1 p) ".") then true
      else has_non_dot k (i + 1) p
  end.

(** [os.path.splitext(p)] *)
Definition splitext (p : string) : string * string :=
  let sepIndex := rfind sep p in
  let dotIndex := rfind extsep p in
  if (sepIndex <? dotIndex)%Z
     && has_non_dot (Z.to_nat (dotIndex - (sepIndex + 1))) (sepIndex + 1) p
  then (slice_to dotIndex p, slice_from dotIndex p)
  else (p, "").

(** [os.path.split(p)] *)
Definition split_path (p : string) : string * string :=
  let i := (rfind sep p + 1)%Z in
  let head := slice_to i p in
  let tail := slice_from i p in
  let head' :=
    if negb (String.eqb head "") && negb (String.eqb (lstrip sep head) "")
    then rstrip sep head else head in
  (head', tail).

(** The loop of [os.path.normpath] over the components. *)
Fixpoint normpath_comps (initial_slashes : nat) (comps new_comps : list string)
  : list string :=
  match comps with
  | [] => new_comps
  | comp :: rest =>
      if String.eqb comp "" || String.eqb comp "." then
        normpath_comps initial_slashes rest new_comps
      else if negb (String.eqb comp "..")
              || (Nat.eqb initial_slashes 0 && Nat.eqb (length new_comps) 0)
              || match last new_comps with
                 | Some l => String.eqb l ".."
                 | None => false
                 end
      then normpath_comps initial_slashes rest (new_comps ++ [comp])
      else normpath_comps initial_slashes rest (removelast new_comps)
  end.

(** [os.path.normpath(path)] *)
Definition normpath (path : string) : string :=
  if String.eqb path "" then "."
  else
    let initial_slashes :=
      if startswith path "/" then
        if startswith path "//" && negb (startswith path "///") then 2%nat
        else 1%nat
      else 0%nat in
    let comps := normpath_comps initial_slashes (split sep path) [] in
    let body := join_with "/" comps in
    let res :=
      match initial_slashes with
      | O => body
      | 1%nat => "/" ++ body
      | _ => "//" ++ body
      end in
    if String.eqb res "" then "." else res.

(** [os.path.abspath(path)] in the working directory [cwd]. *)
Definition abspath (cwd path : string) : string :=
  normpath (if isabs path then path else join cwd path).

(** [os.path.expanduser(path)] when [HOME] is set to [home] and the
    password database knows no user: for [~name], [pwd.getpwnam(name)]
    raises [KeyError] and the path stays as it is, unless [name] holds a
    NUL, on which [getpwnam] raises [ValueError] ([None] here). *)
Definition expanduser_home (home path : string) : option string :=
  if negb (startswith path "~") then Some path
  else
    let i0 := find_from sep 1 path in
    let i := if (i0 <? 0)%Z then len path else i0 in
    if (i =? 1)%Z then
      let r := rstrip sep home ++ slice_from i path in
      Some (if String.eqb r "" then "/" else r)
    else
      let name := substring 1 (Z.to_nat i - 1) path in
      if contains (String zero EmptyString) name then None else Some path.

(** The loop of [posixpath._joinrealpath] on a file system that holds no
    symbolic link: [os.lstat] then never reports a link, it raises
    [ValueError] on a name with an embedded NUL ([None] here), and each
    [partition] of the rest yields the next element of its [split]. *)
Fixpoint joinrealpath (path : string) (names : list string) : option string :=
  match names with
  | [] => Some path
  | name :: rest =>
      if String.eqb name "" || String.eqb name "." then joinrealpath path rest
      else if String.eqb name ".." then
        if negb (String.eqb path "") then
          let '(p, n) := split_path path in
          joinrealpath (if String.eqb n ".." then join (join p "..") ".."
                        else p) rest
        else joinrealpath ".." rest
      else
        let newpath := join path name in
        if contains (String zero EmptyString) newpath then None
        else joinrealpath newpath rest
  end.

(** [os.path.realpath(filename)] on such a file system. *)
Definition realpath_nolinks (cwd filename : string) : option string :=
  let '(path, rest) :=
    if isabs filename
    then ("/", slice_from 1 filename)
    else ("", filename) in
  abspath cwd <$> joinrealpath path (split sep rest).

End PosixPath.

(** ** The operating system, as the subsystem sees it *)

Record OS := {
  (** [os.path.expanduser]; [None] when it raises [ValueError] *)
  expanduser : string -> option string;
  (** [os.path.realpath]; [None] when it raises *)
  realpath : string -> option string;
  (** [os.makedirs(p, mode=0o755, exist_ok=True)]: [None] on success,
      [Some msg] when it raises an exception [e] with [str(e) = msg] *)
  makedirs : string -> option string;
  (** [os.access(p, os.W_OK)] *)
  access_w : string -> bool
}.

(** A POSIX system without symbolic links where every directory can be
    created and written; a path with an embedded NUL names none, and
    [os.makedirs] raises [ValueError] on it. *)
Definition posix_nolinks (home cwd : string) : OS := {|
  expanduser := PosixPath.expanduser_home home;
  realpath := PosixPath.realpath_nolinks cwd;
  makedirs := fun p =>
    if PyStr.contains (String zero EmptyString) p
    then Some "embedded null byte" else None;
  access_w := fun _ => true
|}.

(** ** [SecureConfigManager]: the configuration tree and its lookup *)

(** A parsed configuration: nested mappings of string keys to scalars,
    lists or mappings. [VNone] is Python's [None], the default of the
    [default] argument of [get]. *)
#[warnings="-register-all"]
Inductive Value :=
  | VNone
  | VStr (s : string)
  | VInt (z : Z)
  | VBool (b : bool)
  | VList (l : list Value)
  | VDict (m : gmap string Value).

Module SecureConfigManager.

(** The loop of [get]: [value] walks down one key at a time, and the first
    key that is not in the current node, or whose node is not a [dict],
    returns [default]. *)
Fixpoint get_keys (keys : list string) (value default : Value) : Value :=
  match keys with
  | [] => value
  | key :: rest =>
      match value with
      | VDict m =>
          match m !! key with
          | Some v => get_keys rest v default
          | None => default
          end
      | _ => default
      end
  end.

(** [SecureConfigManager.get(path, default)] on the tree [config]. *)
Definition get (config : Value) (path : string) (default : Value) : Value :=
  get_keys (PyStr.split "."%char path) config default.

Definition strs (l : list string) : Value := VList (VStr <$> l).

(** [default_config] of [_load_config]. *)
Definition default_config : Value :=
  VDict (list_to_map [
    ("download_locations",
      VDict (list_to_map [("default", VStr "~/video-downloader")]));
    ("security",
      VDict (list_to_map [
        ("enforce_location_restrictions", VBool true);
        ("max_filename_length", VInt 255);
        ("allowed_extensions",
          strs ["mp4"; "webm"; "mkv"; "avi"; "mov"; "m4a"; "mp3"; "aac";
                "ogg"; "wav"; "vtt"; "srt"; "ass"; "ssa"]);
        ("block_path_traversal", VBool true)]));
    ("ytdlp",
      VDict (list_to_map [
        ("default_format", VStr "best[height<=1080]");
        ("default_filename_template", VStr "%(title)s.%(ext)s");
        ("max_download_size", VInt 0)]));
    ("logging",
      VDict (list_to_map [
        ("log_security_events", VBool true);
        ("log_downloads", VBool true)]))]).

(** The loop of [_deep_merge]: [result] starts as a copy of [base] and
    takes one assignment per item of [update]. The update dictionary is
    passed as the tree node that holds it, which makes the recursion on
    its values structural; a node that is no dictionary has no items. *)
Fixpoint deep_merge_items (base : gmap string Value) (update : Value)
    {struct update} : gmap string Value :=
  match update with
  | VDict items =>
      map_fold (fun key value result =>
                  match result !! key, value with
                  | Some (VDict r), VDict _ =>
                      <[key := VDict (deep_merge_items r value)]> result
                  | _, _ => <[key := value]> result
                  end)
               base items
  | _ => base
  end.

(** [_deep_merge(base, update)] *)
Definition _deep_merge (base update : gmap string Value) : gmap string Value :=
  deep_merge_items base (VDict update).

(** What [_load_config] finds at [config_path]: no file, a file that
    [tomllib.load] fails on, or a file parsed to a dictionary. *)
Inductive ConfigFile :=
  | NoFile
  | Unreadable
  | Parsed (user_config : gmap string Value).

(** The dictionary held by [default_config]. *)
Definition default_dict : gmap string Value :=
  match default_config with
  | VDict m => m
  | _ => ∅
  end.

(** [_load_config]: the merged tree for a file that parses, the built-in
    defaults otherwise. *)
Definition _load_config (file : ConfigFile) : Value :=
  match file with
  | Parsed user_config => VDict (_deep_merge default_dict user_config)
  | Unreadable => default_config
  | NoFile => default_config
  end.

End SecureConfigManager.

(** ** Validation results *)

(** The error messages of the subsystem, by kind. Each constructor stands
    for one message of the source and carries what that message
    interpolates:
    - [PathTraversalDetected]: "Path traversal sequences detected"
    - [AbsolutePathRejected]: "Absolute paths not allowed"
    - [PathEscapesBase d]: "Path escapes allowed directory: d"
    - [FilenameTooLong n]: "Filename too long (max n chars)"
    - [ExtensionNotAllowed e]: "File extension .e not allowed"
    - [PathValidationError]: "Path validation error: ..."
    - [UnknownLocation i l]: "Unknown location 'i'. Available: l"
    - [LocationNotWritable i]: "Location 'i' is not writable" *)
Inductive Reason :=
  | PathTraversalDetected
  | AbsolutePathRejected
  | PathEscapesBase (base_dir : string)
  | FilenameTooLong (max : Z)
  | ExtensionNotAllowed (ext : string)
  | PathValidationError
  | UnknownLocation (location_id : string) (available : list string)
  | LocationNotWritable (location_id : string).

(** [(True, path, None)] is [Accepted path]; [(False, None, message)] is
    [Rejected] with the kind of the message. *)
Inductive Result :=
  | Accepted (path : string)
  | Rejected (reason : Reason).

(** ** [PathValidator] *)

Record PathValidator := {
  allowed_extensions : gset string;
  max_filename_length : Z;
  block_traversal : bool
}.

Module Validator.
Import PyStr PosixPath.

(** The elements of a configured list when all of them are strings. *)
Fixpoint str_list (l : list Value) : option (list string) :=
  match l with
  | [] => Some []
  | VStr s :: rest => cons s <$> str_list rest
  | _ :: _ => None
  end.

(** [PathValidator.__init__]: the three policy values with their
    defaults. The source stores whatever the configuration holds; the
    model covers configurations that give the three keys the types of the
    data model (a list of strings, an integer, a boolean) and is [None]
    on the others. *)
Definition init (config : Value) : option PathValidator :=
  match SecureConfigManager.get config "security.allowed_extensions" (VList []),
        SecureConfigManager.get config "security.max_filename_length" (VInt 255),
        SecureConfigManager.get config "security.block_path_traversal" (VBool true)
  with
  | VList l, VInt n, VBool b =>
      exts ← str_list l;
      Some {| allowed_extensions := list_to_set exts;
              max_filename_length := n;
              block_traversal := b |}
  | _, _, _ => None
  end.

Definition dangerous_patterns : list string :=
  ["../"; "..\"; "..\\"; "..//"].

(** [_contains_traversal] *)
Definition _contains_traversal (path : string) : bool :=
  let path_lower := lower path in
  existsb (fun pattern => contains pattern path_lower) dangerous_patterns.

(** The extension the allow-list is asked about:
    [os.path.splitext(filename)[1].lower().lstrip('.')] *)
Definition extension (filename : string) : string :=
  lstrip "."%char (lower (splitext filename).2).

(** [validate_path]. The [try] block is the body; the [except] clause is
    reached when [os.path.expanduser] or [os.path.realpath] raises. *)
Definition validate_path (self : PathValidator) (os : OS)
    (path base_dir : string) : Result :=
  if block_traversal self && _contains_traversal path then
    Rejected PathTraversalDetected
  else
    match expanduser os base_dir with
    | None => Rejected PathValidationError
    | Some base_dir =>
        if negb (isabs path) then
          let full_path := join base_dir path in
          match realpath os full_path with
          | None => Rejected PathValidationError
          | Some normalized =>
              match realpath os base_dir with
              | None => Rejected PathValidationError
              | Some base_real =>
                  if negb (startswith normalized (base_real ++ "/"))
                     && negb (String.eqb normalized base_real)
                  then Rejected (PathEscapesBase base_dir)
                  else
                    let filename := basename normalized in
                    if (max_filename_length self <? len filename)%Z then
                      Rejected (FilenameTooLong (max_filename_length self))
                    else if bool_decide (allowed_extensions self ≠ ∅) then
                      let ext := extension filename in
                      if negb (String.eqb ext "")
                         && bool_decide (ext ∉ allowed_extensions self)
                      then Rejected (ExtensionNotAllowed ext)
                      else Accepted normalized
                    else Accepted normalized
              end
          end
        else Rejected AbsolutePathRejected
    end.

Definition dangerous_chars : list ascii :=
  ["|"; "&"; ";"; "$"; "`"; ">"; "<"]%char.

(** [sanitize_template_vars] *)
Definition sanitize_template_vars (template : string) : string :=
  fold_left (fun sanitized char => replace char "_"%char sanitized)
            dangerous_chars template.

End Validator.

(** ** [LocationManager] *)

(** One entry of the locations dictionary. *)
Record Location := {
  path : string;
  original : string;
  writable : bool;
  description : string
}.

(** A manager. The dictionaries of the source keep the insertion order
    of their keys and the maps of the tree do not: [configured_order] is
    that order for the ids of the configured [download_locations], which
    the loop of [_build_locations] and the list of available ids follow. *)
Record LocationManager := {
  config : Value;
  configured_order : list string;
  validator : PathValidator;
  _locations_cache : option (gmap string Location)
}.

(** The exceptions that leave the subsystem uncaught. *)
Inductive Exn := AttributeError | TypeError | ValueError.

Inductive Exc (A : Type) :=
  | Ok (a : A)
  | Raise (e : Exn).
Arguments Ok {A} a.
Arguments Raise {A} e.

(** A method of [LocationManager]: it may assign [self._locations_cache],
    and it returns or raises. An exception does not undo an assignment
    made before it. *)
Definition Method (A : Type) : Type :=
  LocationManager -> Exc A * LocationManager.

Definition ret {A} (a : A) : Method A := fun self => (Ok a, self).

Definition raise {A} (e : Exn) : Method A := fun self => (Raise e, self).

Definition bind {A B} (m : Method A) (k : A -> Method B) : Method B :=
  fun self =>
    match m self with
    | (Ok a, self') => k a self'
    | (Raise e, self') => (Raise e, self')
    end.

Notation "x <~ m ; k" := (bind m (fun x => k))
  (at level 20, m at level 100, k at level 200, only parsing).

Module Locations.
Import PyStr PosixPath.

(** [LocationManager.__init__], with the validator it builds; [order] is
    the insertion order of the configured location ids. *)
Definition init (config : Value) (order : list string)
  : option LocationManager :=
  v ← Validator.init config;
  Some {| config := config; configured_order := order; validator := v;
          _locations_cache := None |}.

(** The [try] block of the loop of [_build_locations] for one configured
    path and its expansion. *)
Definition build_location (os : OS) (path expanded_path : string) : Location :=
  match makedirs os expanded_path with
  | None =>
      if access_w os expanded_path then
        {| path := expanded_path; original := path; writable := true;
           description := "Download location: " ++ path |}
      else
        {| path := expanded_path; original := path; writable := false;
           description := "Download location: " ++ path ++ " (not writable)" |}
  | Some e =>
      {| path := expanded_path; original := path; writable := false;
         description := "Download location: " ++ path ++ " (error: " ++ e ++ ")" |}
  end.

Definition is_str (v : Value) : bool :=
  match v with VStr _ => true | _ => false end.

(** The entry recorded for a configured value that is a string and
    expands. *)
Definition location_of (os : OS) (v : Value) : option Location :=
  match v with
  | VStr p => build_location os p <$> expanduser os p
  | _ => None
  end.

(** [d.items()] for a dictionary with the keys [order]. *)
Definition items (order : list string) (d : gmap string Value)
  : list (string * Value) :=
  omap (fun key => (fun v => (key, v)) <$> d !! key) order.

(** The loop of [_build_locations], item by item. [os.path.expanduser]
    stands outside the [try]: on a configured path that is no string it
    raises [TypeError], on one it cannot expand it raises [ValueError],
    and the loop ends there. *)
Fixpoint build_loop (os : OS) (configured : list (string * Value))
    (locations : gmap string Location) : Exc (gmap string Location) :=
  match configured with
  | [] => Ok locations
  | (location_id, v) :: rest =>
      match v with
      | VStr path =>
          match expanduser os path with
          | None => Raise ValueError
          | Some expanded_path =>
              build_loop os rest
                (<[location_id := build_location os path expanded_path]>
                   locations)
          end
      | _ => Raise TypeError
      end
  end.

(** [_build_locations]. [.items()] raises [AttributeError] when the
    configured value is no mapping. *)
Definition _build_locations (os : OS) (self : LocationManager)
  : Exc (gmap string Location) :=
  match SecureConfigManager.get (config self) "download_locations" (VDict ∅) with
  | VDict configured_locations =>
      build_loop os (items (configured_order self) configured_locations) ∅
  | _ => Raise AttributeError
  end.

(** [get_locations]: builds on the first call, answers from the cache
    afterwards. *)
Definition get_locations (os : OS) : Method (gmap string Location) :=
  fun self =>
    match _locations_cache self with
    | None =>
        match _build_locations os self with
        | Ok locations =>
            (Ok locations,
             {| config := config self; configured_order := configured_order self;
                validator := validator self;
                _locations_cache := Some locations |})
        | Raise e => (Raise e, self)
        end
    | Some locations => (Ok locations, self)
    end.

(** The keys of the locations dictionary, in the order they were
    inserted. *)
Definition keys_in_order (order : list string)
    (locations : gmap string Location) : list string :=
  filter (fun key => is_Some (locations !! key)) order.

(** [validate_location] *)
Definition validate_location (os : OS) (location_id : string) : Method Result :=
  locations <~ get_locations os ;
  match locations !! location_id with
  | None =>
      fun self =>
        let available := keys_in_order (configured_order self) locations in
        ret (Rejected (UnknownLocation location_id available)) self
  | Some location =>
      if negb (writable location) then
        ret (Rejected (LocationNotWritable location_id))
      else ret (Accepted (path location))
  end.

(** Truth value of an optional string argument: [None] and [''] are
    false. *)
Definition truthy (o : option string) : bool :=
  match o with
  | Some s => negb (String.eqb s "")
  | None => false
  end.

(** The string held by an argument that is given. *)
Definition str_of (o : option string) : string := default "" o.

(** The candidate of [construct_download_path], before sanitization. The
    default template is read from the configuration;
    [sanitize_template_vars] then calls [.replace] on it, which raises
    [AttributeError] if it is no string. *)
Definition full_relative (self : LocationManager)
    (relative_path filename_template : option string) : Exc string :=
  if truthy relative_path then
    if truthy filename_template then
      Ok (join (str_of relative_path) (str_of filename_template))
    else Ok (str_of relative_path)
  else if truthy filename_template then Ok (str_of filename_template)
  else
    match SecureConfigManager.get (config self)
            "ytdlp.default_filename_template" (VStr "%(title)s.%(ext)s") with
    | VStr s => Ok s
    | _ => Raise AttributeError
    end.

(** [construct_download_path] *)
Definition construct_download_path (os : OS) (location_id : string)
    (relative_path filename_template : option string) : Method Result :=
  located <~ validate_location os location_id ;
  match located with
  | Rejected error => ret (Rejected error)
  | Accepted base_path =>
      fun self =>
        match full_relative self relative_path filename_template with
        | Raise e => (Raise e, self)
        | Ok full_relative =>
            let full_relative :=
              Validator.sanitize_template_vars full_relative in
            (Ok (Validator.validate_path (validator self) os
                   full_relative base_path), self)
        end
  end.

End Locations.

(** ** [WebpageAnalyzer.extract_video_patterns]: collecting the matches *)

(** One element of the list [re.findall] returns: the text of the group
    for a pattern with one group, the tuple of the groups for a pattern
    with two groups or more. *)
Inductive Match :=
  | MStr (s : string)
  | MTuple (g0 g1 : string) (more : list string).

Module WebpageAnalyzer.
Import PyStr.

Section Collect.
(** The regular-expression engine and [urllib.parse.urljoin] are taken as
    they are: [findall pattern html] stands for
    [re.findall(pattern, html_content, re.IGNORECASE)]. *)
Variable findall : string -> string -> list Match.
Variable urljoin : string -> string -> string.

(** [match[1] if isinstance(match, tuple) and len(match) > 1 else match] *)
Definition url_of (m : Match) : string :=
  match m with
  | MTuple _ g1 _ => g1
  | MStr s => s
  end.

(** The conversion of a matched URL to an absolute one. *)
Definition absolute_url (base_url url : string) : string :=
  if startswith url "//" then "https:" ++ url
  else if startswith url "/" then urljoin base_url url
  else if negb (startswith url "http") then urljoin base_url url
  else url.

(** [if url not in extracted[category]: extracted[category].append(url)] *)
Definition append_new (urls : list string) (url : string) : list string :=
  if bool_decide (url ∈ urls) then urls else (urls ++ [url])%list.

(** The loop over the matches of one pattern. *)
Definition collect_matches (base_url : string) (urls : list string)
    (matches : list Match) : list string :=
  fold_left (fun urls m => append_new urls (absolute_url base_url (url_of m)))
            matches urls.

(** The list [extracted[category]] after the loop over [pattern_list]. *)
Definition extract_category (html_content base_url : string)
    (pattern_list : list string) : list string :=
  fold_left (fun urls pattern =>
               collect_matches base_url urls (findall pattern html_content))
            pattern_list [].

End Collect.
End WebpageAnalyzer.

(** * Vocabulary of the statements *)

Section Vocabulary.
Import PyStr PosixPath SecureConfigManager Validator Locations.

(** What the loop of [sanitize_template_vars] does to one character. *)
Definition sanitize_char (c : ascii) : ascii :=
  fold_left (fun a char => if Ascii.eqb a char then "_"%char else a)
            dangerous_chars c.

Definition is_dangerous (c : ascii) : bool :=
  existsb (Ascii.eqb c) dangerous_chars.

(** [s] holds [pat] up to letter case: some substring of [s] has the
    lower case of [pat]. *)
Definition ContainsCI (pat s : string) : Prop :=
  exists a u b, s = a ++ u ++ b /\ lower u = lower pat.

(** Steps 1 to 4 of the validation let the candidate through, with [n] the
    canonical form of the composed path: the traversal screen is off or
    finds nothing, the base directory expands, the candidate is relative,
    and [n] is the canonical base or lies below it. *)
Definition PassesContainment (self : PathValidator) (os : OS)
    (path base_dir n : string) : Prop :=
  block_traversal self && _contains_traversal path = false
  /\ isabs path = false
  /\ exists base,
       expanduser os base_dir = Some base
       /\ realpath os (join base path) = Some n
       /\ exists base_real,
            realpath os base = Some base_real
            /\ (startswith n (base_real ++ "/") = true \/ n = base_real).

(** The allow-list step lets [filename] through: there is no allow-list,
    or the extension is empty, or it is listed. *)
Definition ExtensionPasses (self : PathValidator) (filename : string) : Prop :=
  allowed_extensions self = ∅
  \/ extension filename = ""
  \/ extension filename ∈ allowed_extensions self.

(** The policy of the built-in configuration. *)
Definition default_policy : PathValidator := {|
  allowed_extensions :=
    list_to_set ["mp4"; "webm"; "mkv"; "avi"; "mov"; "m4a"; "mp3"; "aac";
                 "ogg"; "wav"; "vtt"; "srt"; "ass"; "ssa"];
  max_filename_length := 255;
  block_traversal := true
|}.

(** A system to evaluate examples on. *)
Definition example_os : OS := posix_nolinks "/home/user" "/srv/app".

(** A path [os.path.expanduser] raises on: a user name with a NUL in it. *)
Definition unexpandable_dir : string := "~a" ++ String zero "b".

(** A policy with a short length limit and a one-element allow-list. *)
Definition short_policy : PathValidator := {|
  allowed_extensions := {["mp4"]};
  max_filename_length := 10;
  block_traversal := true
|}.

(** [Reaches t keys w]: following [keys] from the node [t], one key per
    mapping, every key is present and leads to the node [w]. *)
Inductive Reaches : Value -> list string -> Value -> Prop :=
  | reaches_here (t : Value) : Reaches t [] t
  | reaches_step (m : gmap string Value) (key : string) (keys : list string)
      (v w : Value) :
      m !! key = Some v -> Reaches v keys w -> Reaches (VDict m) (key :: keys) w.

(** No step by [key] can be made from [t]: [t] is no mapping, or it is a
    mapping without [key]. *)
Definition Stuck (t : Value) (key : string) : Prop :=
  match t with
  | VDict m => m !! key = None
  | _ => True
  end.

(** The configuration gives [download_locations] the type of the data
    model: a mapping [m] whose values are strings; and the order of the
    manager lists the ids of [m], each once. *)
Definition Configured (self : LocationManager) (m : gmap string Value) : Prop :=
  SecureConfigManager.get (config self) "download_locations" (VDict ∅) = VDict m
  /\ map_Forall (fun _ v => is_str v = true) m
  /\ (forall key, key ∈ configured_order self <-> is_Some (m !! key))
  /\ NoDup (configured_order self).

(** [os.path.expanduser] returns on every path configured in [m]. *)
Definition Expandable (os : OS) (m : gmap string Value) : Prop :=
  forall key p, m !! key = Some (VStr p) -> is_Some (expanduser os p).

(** The cache is empty or holds what an earlier [_build_locations]
    returned. *)
Definition cache_inv (self : LocationManager) : Prop :=
  match _locations_cache self with
  | None => True
  | Some locations => exists os, _build_locations os self = Ok locations
  end.

(** The dictionary [get_locations] answers with. *)
Definition locations_of (os : OS) (self : LocationManager)
    (m : gmap string Value) : gmap string Location :=
  match _locations_cache self with
  | Some locations => locations
  | None => omap (location_of os) m
  end.

(** The manager with another validator, the system with another
    [realpath]. *)
Definition with_validator (v : PathValidator) (self : LocationManager)
  : LocationManager :=
  {| config := config self; configured_order := configured_order self;
     validator := v;
     _locations_cache := _locations_cache self |}.

Definition with_realpath (rp : string -> option string) (os : OS) : OS :=
  {| expanduser := expanduser os; realpath := rp;
     makedirs := makedirs os; access_w := access_w os |}.

(** The tree that [_deep_merge] returns for an override file that sets the
    one entry [key] of the table [table]. *)
Definition set_in (config : Value) (table key : string) (v : Value) : Value :=
  match config with
  | VDict m =>
      match m !! table with
      | Some (VDict t) => VDict (<[table := VDict (<[key := v]> t)]> m)
      | _ => VDict (<[table := VDict {[key := v]}]> m)
      end
  | _ => config
  end.

(** The built-in configuration with the location "default" at /tmp/dl,
    and the same with traversal enforcement switched off. *)
Definition tmp_dl_config : Value :=
  set_in SecureConfigManager.default_config
         "download_locations" "default" (VStr "/tmp/dl").

Definition tmp_dl_lenient_config : Value :=
  set_in tmp_dl_config "security" "block_path_traversal" (VBool false).

Definition tmp_dl_manager : LocationManager :=
  {| config := tmp_dl_config; configured_order := ["default"];
     validator := default_policy;
     _locations_cache := None |}.

Definition tmp_dl_lenient_manager : LocationManager :=
  {| config := tmp_dl_lenient_config;
     configured_order := ["default"];
     validator := {| allowed_extensions := allowed_extensions default_policy;
                     max_filename_length := 255;
                     block_traversal := false |};
     _locations_cache := None |}.

(** A node of the tree that is a mapping. *)
Definition is_dict (v : Value) : bool :=
  match v with VDict _ => true | _ => false end.

(** Nesting depth of a tree: the longest chain of mappings. *)
Fixpoint depth (v : Value) : nat :=
  match v with
  | VDict m => S (map_fold (fun _ child acc => Nat.max (depth child) acc) 0%nat m)
  | _ => 0%nat
  end.

(** An override file that sets the maximum filename length and nothing
    else. *)
Definition short_names_override : gmap string Value :=
  {["security" := VDict {["max_filename_length" := VInt 64]}]}.

(** Every character of [pat] is the image under [f] of itself only. *)
Fixpoint chars_fixed (f : ascii -> ascii) (pat : string) : Prop :=
  match pat with
  | EmptyString => True
  | String a pat' =>
      (forall c, Ascii.eqb a (f c) = Ascii.eqb a c) /\ chars_fixed f pat'
  end.

(** Whether the loop of [_build_locations] records the expanded path
    [p] as writable: the directory could be made and [os.access] agrees. *)
Definition recorded_writable (os : OS) (p : string) : bool :=
  match makedirs os p with
  | None => access_w os p
  | Some _ => false
  end.

(** The example system after every directory has become read-only. *)
Definition readonly_os : OS :=
  {| expanduser := expanduser example_os; realpath := realpath example_os;
     makedirs := makedirs example_os; access_w := fun _ => false |}.

(** A manager whose configuration gives the location "default" a path
    that cannot be expanded. *)
Definition unexpandable_manager : LocationManager :=
  {| config := set_in SecureConfigManager.default_config
                      "download_locations" "default" (VStr unexpandable_dir);
     configured_order := ["default"];
     validator := default_policy;
     _locations_cache := None |}.

(** A manager whose configuration gives the location "default" a number
    for a path. *)
Definition ill_typed_manager : LocationManager :=
  {| config := set_in SecureConfigManager.default_config
                      "download_locations" "default" (VInt 5);
     configured_order := ["default"];
     validator := default_policy;
     _locations_cache := None |}.

(** The policy [PathValidator.__init__] falls back to when the
    configuration answers none of its three lookups. *)
Definition fallback_policy : PathValidator := {|
  allowed_extensions := ∅;
  max_filename_length := 255;
  block_traversal := true
|}.

End Vocabulary.

(** Settles a closed decidable proposition by evaluating its decision
    procedure. *)
Ltac decide_by_compute :=
  refine (bool_decide_unpack _ _); vm_compute; exact I.

(** * Properties *)

(** ** Strings *)

Section StringFacts.
Import PyStr.

Lemma append_assoc (a b c : string) : (a ++ b) ++ c = a ++ b ++ c.
Proof. induction a as [|x a IH]; simpl; [done|]. by rewrite IH. Qed.

Lemma startswith_app (p b : string) : startswith (p ++ b) p = true.
Proof.
  induction p as [|a p IH]; simpl; [done|].
  by rewrite Ascii.eqb_refl.
Qed.

Lemma startswith_inv (s p : string) :
  startswith s p = true -> exists b, s = p ++ b.
Proof.
  revert s. induction p as [|a p IH]; intros s H.
  - by exists s.
  - destruct s as [|c s]; simpl in H; [done|].
    apply andb_true_iff in H as [Hc Hs].
    apply Ascii.eqb_eq in Hc as ->.
    destruct (IH _ Hs) as [b ->]. by exists b.
Qed.

Lemma contains_startswith (pat s : string) :
  startswith s pat = true -> contains pat s = true.
Proof. intros H. destruct s; simpl; by rewrite H. Qed.

Lemma contains_app (pat a b : string) : contains pat (a ++ pat ++ b) = true.
Proof.
  induction a as [|c a IH]; simpl.
  - apply contains_startswith, startswith_app.
  - rewrite IH. apply orb_true_r.
Qed.

Lemma contains_inv (pat s : string) :
  contains pat s = true -> exists a b, s = a ++ pat ++ b.
Proof.
  induction s as [|c s IH]; simpl; intros H.
  - rewrite orb_false_r in H. apply startswith_inv in H as [b ->].
    by exists "", b.
  - apply orb_true_iff in H as [H|H].
    + apply startswith_inv in H as [b ->]. by exists "", b.
    + destruct (IH H) as (a & b & ->). by exists (String c a), b.
Qed.

Lemma lower_app (a b : string) : lower (a ++ b) = lower a ++ lower b.
Proof. induction a as [|c a IH]; simpl; [done|]. by rewrite IH. Qed.

Lemma length_replace (old new : ascii) (s : string) :
  String.length (replace old new s) = String.length s.
Proof. induction s as [|c s IH]; simpl; [done|]. by rewrite IH. Qed.

End StringFacts.

(** ** Template sanitization *)

Section Sanitize.
Import PyStr Validator.

Lemma fold_replace_cons (l : list ascii) (c : ascii) (s : string) :
  fold_left (fun sanitized char => replace char "_"%char sanitized) l (String c s)
  = String (fold_left (fun a char => if Ascii.eqb a char then "_"%char else a) l c)
           (fold_left (fun sanitized char => replace char "_"%char sanitized) l s).
Proof.
  revert c s. induction l as [|d l IH]; intros c s; simpl; [done|].
  by rewrite IH.
Qed.

Lemma fold_replace_nil (l : list ascii) :
  fold_left (fun sanitized char => replace char "_"%char sanitized) l "" = "".
Proof. induction l as [|d l IH]; simpl; done. Qed.

Lemma sanitize_cons (c : ascii) (s : string) :
  sanitize_template_vars (String c s)
  = String (sanitize_char c) (sanitize_template_vars s).
Proof. apply fold_replace_cons. Qed.

Lemma sanitize_nil : sanitize_template_vars "" = "".
Proof. reflexivity. Qed.

Lemma sanitize_char_spec (c : ascii) :
  sanitize_char c = if is_dangerous c then "_"%char else c.
Proof. destruct c as [[] [] [] [] [] [] [] []]; reflexivity. Qed.

Lemma sanitize_char_safe (c : ascii) : is_dangerous (sanitize_char c) = false.
Proof. destruct c as [[] [] [] [] [] [] [] []]; reflexivity. Qed.

Lemma sanitize_char_idem (c : ascii) :
  sanitize_char (sanitize_char c) = sanitize_char c.
Proof.
  rewrite (sanitize_char_spec (sanitize_char c)).
  by rewrite sanitize_char_safe.
Qed.

Lemma sanitize_get (t : string) (i : nat) :
  String.get i (sanitize_template_vars t)
  = (fun c => if is_dangerous c then "_"%char else c) <$> String.get i t.
Proof.
  revert i. induction t as [|c t IH]; intros i.
  - by destruct i.
  - rewrite sanitize_cons. destruct i as [|i]; simpl.
    + by rewrite sanitize_char_spec.
    + apply IH.
Qed.

Lemma sanitize_length (t : string) :
  String.length (sanitize_template_vars t) = String.length t.
Proof.
  induction t as [|c t IH]; [done|].
  rewrite sanitize_cons. simpl. by rewrite IH.
Qed.

Lemma contains_char_cons (d c : ascii) (s : string) :
  contains (String d "") (String c s)
  = Ascii.eqb d c || contains (String d "") s.
Proof. simpl. by rewrite andb_true_r. Qed.

Lemma sanitize_free (t : string) (d : ascii) :
  is_dangerous d = true ->
  contains (String d "") (sanitize_template_vars t) = false.
Proof.
  intros Hd. induction t as [|c t IH]; [done|].
  rewrite sanitize_cons, contains_char_cons, IH, orb_false_r.
  destruct (Ascii.eqb_spec d (sanitize_char c)) as [->|]; [|done].
  by rewrite sanitize_char_safe in Hd.
Qed.

(** C8. Template sanitization is idempotent: sanitizing a sanitized
    template changes nothing. *)
Theorem sanitize_template_vars_idempotent (t : string) :
  sanitize_template_vars (sanitize_template_vars t) = sanitize_template_vars t.
Proof.
  induction t as [|c t IH]; [done|].
  by rewrite !sanitize_cons, sanitize_char_idem, IH.
Qed.

(** C10. The sanitized template holds none of the seven characters of the
    denylist, is as long as the template, and at every index holds an
    underscore where the template holds a denylisted character and the
    template's own character elsewhere. *)
Theorem sanitize_template_vars_pointwise (t : string) :
  Forall (fun d => contains (String d "") (sanitize_template_vars t) = false)
         ["|"; "&"; ";"; "$"; "`"; ">"; "<"]%char
  /\ String.length (sanitize_template_vars t) = String.length t
  /\ forall i : nat,
       String.get i (sanitize_template_vars t)
       = (fun c => if existsb (Ascii.eqb c) ["|"; "&"; ";"; "$"; "`"; ">"; "<"]%char
                   then "_"%char else c) <$> String.get i t.
Proof.
  split; [|split].
  - repeat constructor; by apply sanitize_free.
  - apply sanitize_length.
  - apply sanitize_get.
Qed.

End Sanitize.

(** ** Path validation *)

Section ValidatePath.
Import PyStr PosixPath Validator.

Lemma init_default_config :
  Validator.init SecureConfigManager.default_config = Some default_policy.
Proof. vm_compute. reflexivity. Qed.

Lemma contains_lower_ci (pat s : string) :
  ContainsCI pat s -> contains (lower pat) (lower s) = true.
Proof.
  intros (a & u & b & -> & Hu). rewrite !lower_app, Hu. apply contains_app.
Qed.

Lemma contains_traversal_ci (path : string) :
  ContainsCI "../" path \/ ContainsCI "..\" path ->
  _contains_traversal path = true.
Proof.
  intros H. unfold _contains_traversal. apply existsb_exists.
  destruct H as [H|H]; apply contains_lower_ci in H;
    [exists "../" | exists "..\"];
    (split; [unfold dangerous_patterns; simpl; tauto | exact H]).
Qed.

Lemma validate_path_traversal (self : PathValidator) (os : OS)
    (path base_dir : string) :
  block_traversal self = true ->
  _contains_traversal path = true ->
  validate_path self os path base_dir = Rejected PathTraversalDetected.
Proof. intros Hb Hc. unfold validate_path. by rewrite Hb, Hc. Qed.

Lemma absolute_rejected_when_unscreened (self : PathValidator) (os : OS)
    (path base_dir : string) :
  block_traversal self && _contains_traversal path = false ->
  isabs path = true ->
  validate_path self os path base_dir =
    Rejected (match expanduser os base_dir with
              | Some _ => AbsolutePathRejected
              | None => PathValidationError
              end).
Proof.
  intros Hb Ha. unfold validate_path. rewrite Hb.
  destruct (expanduser os base_dir); [|done]. by rewrite Ha.
Qed.

(** The validation once steps 1 to 4 are behind: what is left is the
    length test and the allow-list test on the final component of [n]. *)
Lemma validate_path_after_containment (self : PathValidator) (os : OS)
    (path base_dir n : string) :
  PassesContainment self os path base_dir n ->
  validate_path self os path base_dir =
    let filename := basename n in
    if (max_filename_length self <? len filename)%Z then
      Rejected (FilenameTooLong (max_filename_length self))
    else if bool_decide (allowed_extensions self ≠ ∅) then
      if negb (String.eqb (extension filename) "")
         && bool_decide (extension filename ∉ allowed_extensions self)
      then Rejected (ExtensionNotAllowed (extension filename))
      else Accepted n
    else Accepted n.
Proof.
  intros (Ht & Ha & base & He & Hn & b & Hb & Hin).
  unfold validate_path. rewrite Ht, He, Ha, Hn, Hb. simpl negb.
  destruct Hin as [Hp | ->].
  - by rewrite Hp.
  - by rewrite String.eqb_refl, andb_false_r.
Qed.

Lemma validate_path_accepted_inv (self : PathValidator) (os : OS)
    (path base_dir p : string) :
  validate_path self os path base_dir = Accepted p ->
  PassesContainment self os path base_dir p.
Proof.
  unfold validate_path, PassesContainment.
  destruct (block_traversal self && _contains_traversal path); [done|].
  destruct (expanduser os base_dir) as [base|]; [|done].
  destruct (isabs path); [done|]. simpl negb.
  destruct (realpath os (join base path)) as [n|] eqn:Hn; [|done].
  destruct (realpath os base) as [b|] eqn:Hb; [|done].
  destruct (startswith n (b ++ "/")) eqn:Hs; simpl;
    [|destruct (String.eqb_spec n b) as [->|]; simpl; [|done]];
    (destruct (_ <? _)%Z; [done|]);
    (destruct (bool_decide (allowed_extensions self ≠ ∅));
     [destruct (negb _ && _); [done|]|]);
    intros [= <-]; (split; [done|]); (split; [done|]);
    exists base; (split; [done|]); (split; [done|]);
    exists b; split; auto.
Qed.

(** C1. An accepted result returns the canonical form of the composed
    path, and that path is the canonical base directory or starts with
    the canonical base directory followed by the separator. *)
Theorem validate_path_accepted_contained (self : PathValidator) (os : OS)
    (path base_dir p : string) :
  validate_path self os path base_dir = Accepted p ->
  exists base,
    expanduser os base_dir = Some base
    /\ realpath os (join base path) = Some p
    /\ exists base_real,
         realpath os base = Some base_real
         /\ (p = base_real \/ exists rest, p = base_real ++ "/" ++ rest).
Proof.
  intros H.
  apply validate_path_accepted_inv in H as (_ & _ & base & He & Hn & b & Hb & Hin).
  exists base. split; [done|]. split; [done|]. exists b. split; [done|].
  destruct Hin as [Hs | ->]; [right|by left].
  apply startswith_inv in Hs as [rest ->].
  exists rest. apply append_assoc.
Qed.

Lemma validate_path_accepted_contained_witness :
  validate_path default_policy example_os "clips/./movie.mp4" "/tmp/dl"
    = Accepted "/tmp/dl/clips/movie.mp4"
  /\ exists base,
       expanduser example_os "/tmp/dl" = Some base
       /\ realpath example_os (join base "clips/./movie.mp4")
          = Some "/tmp/dl/clips/movie.mp4"
       /\ exists base_real,
            realpath example_os base = Some base_real
            /\ ("/tmp/dl/clips/movie.mp4" = base_real
                \/ exists rest,
                     "/tmp/dl/clips/movie.mp4" = base_real ++ "/" ++ rest).
Proof.
  split; [vm_compute; reflexivity|].
  apply (validate_path_accepted_contained default_policy example_os
           "clips/./movie.mp4" "/tmp/dl" "/tmp/dl/clips/movie.mp4").
  vm_compute; reflexivity.
Defined.

(** C2. With traversal enforcement on, a candidate that holds [../] or
    [..\], in any letter case, is rejected, with the reason
    PathTraversalDetected or PathEscapesBase, and is never accepted. *)
Theorem validate_path_rejects_traversal (self : PathValidator) (os : OS)
    (path base_dir : string) :
  block_traversal self = true ->
  ContainsCI "../" path \/ ContainsCI "..\" path ->
  (exists reason,
     validate_path self os path base_dir = Rejected reason
     /\ (reason = PathTraversalDetected
         \/ exists d, reason = PathEscapesBase d))
  /\ forall p, validate_path self os path base_dir <> Accepted p.
Proof.
  intros Hb Hc. apply contains_traversal_ci in Hc.
  rewrite (validate_path_traversal _ _ _ _ Hb Hc).
  split; [|done]. exists PathTraversalDetected. split; [done|by left].
Qed.

Lemma validate_path_rejects_traversal_witness :
  block_traversal default_policy = true
  /\ (ContainsCI "../" "a/../../etc/passwd" \/ ContainsCI "..\" "a/../../etc/passwd")
  /\ (exists reason,
        validate_path default_policy example_os "a/../../etc/passwd" "/tmp/dl"
          = Rejected reason
        /\ (reason = PathTraversalDetected
            \/ exists d, reason = PathEscapesBase d))
  /\ forall p, validate_path default_policy example_os "a/../../etc/passwd" "/tmp/dl"
               <> Accepted p.
Proof.
  assert (Hc : ContainsCI "../" "a/../../etc/passwd"
               \/ ContainsCI "..\" "a/../../etc/passwd").
  { left. exists "a/", "../", "../etc/passwd". split; reflexivity. }
  split; [reflexivity|]. split; [exact Hc|].
  apply (validate_path_rejects_traversal default_policy example_os
           "a/../../etc/passwd" "/tmp/dl"); [reflexivity|exact Hc].
Defined.

Lemma passes_containment_example (self : PathValidator) (name : string) :
  _contains_traversal name = false ->
  isabs name = false ->
  realpath example_os (join "/tmp/dl" name) = Some ("/tmp/dl/" ++ name) ->
  PassesContainment self example_os name "/tmp/dl" ("/tmp/dl/" ++ name).
Proof.
  intros Ht Ha Hr. split; [by rewrite Ht, andb_false_r|]. split; [exact Ha|].
  exists "/tmp/dl". split; [reflexivity|]. split; [exact Hr|].
  exists "/tmp/dl". split; [reflexivity|]. left.
  apply (startswith_app "/tmp/dl/" name).
Qed.

(** The claim that every absolute candidate is answered with
    AbsolutePathRejected fails on an absolute candidate that the
    traversal screen catches first. *)
Lemma absolute_candidate_screened_first :
  isabs "/../etc/passwd" = true
  /\ validate_path default_policy example_os "/../etc/passwd" "/tmp/dl"
       = Rejected PathTraversalDetected
  /\ validate_path default_policy example_os "/../etc/passwd" "/tmp/dl"
       <> Rejected AbsolutePathRejected.
Proof. repeat split; vm_compute; congruence. Qed.

(** C4, amended. An absolute candidate is always rejected, for every
    base directory and policy: with PathTraversalDetected when traversal
    enforcement is on and the candidate holds one of the screened
    sequences; otherwise with the path-validation error when expanding
    the base directory raises; and with AbsolutePathRejected in every
    other case. *)
Theorem validate_path_absolute (self : PathValidator) (os : OS)
    (path base_dir : string) :
  isabs path = true ->
  validate_path self os path base_dir =
    Rejected (if block_traversal self && _contains_traversal path
              then PathTraversalDetected
              else match expanduser os base_dir with
                   | Some _ => AbsolutePathRejected
                   | None => PathValidationError
                   end).
Proof.
  intros Ha.
  destruct (block_traversal self && _contains_traversal path) eqn:Hb.
  - apply andb_true_iff in Hb as [Hb Hc]. by apply validate_path_traversal.
  - by apply absolute_rejected_when_unscreened.
Qed.

Lemma validate_path_absolute_witness :
  isabs "/etc/passwd" = true
  /\ validate_path default_policy example_os "/etc/passwd" "/tmp/dl"
       = Rejected AbsolutePathRejected
  /\ validate_path default_policy example_os "/etc/passwd" unexpandable_dir
       = Rejected PathValidationError.
Proof.
  split; [reflexivity|]. split.
  - apply (validate_path_absolute default_policy example_os
             "/etc/passwd" "/tmp/dl").
    reflexivity.
  - apply (validate_path_absolute default_policy example_os
             "/etc/passwd" unexpandable_dir).
    reflexivity.
Defined.

(** The claim that a final component of exactly the maximum length is
    accepted once the earlier steps pass fails when the allow-list step,
    which comes after the length step, rejects the extension. *)
Lemma maximal_length_rejected_by_extension :
  PassesContainment short_policy example_os "payload.sh" "/tmp/dl"
    "/tmp/dl/payload.sh"
  /\ len (basename "/tmp/dl/payload.sh") = max_filename_length short_policy
  /\ validate_path short_policy example_os "payload.sh" "/tmp/dl"
       = Rejected (ExtensionNotAllowed "sh")
  /\ validate_path short_policy example_os "payload.sh" "/tmp/dl"
       <> Accepted "/tmp/dl/payload.sh".
Proof.
  split; [by apply (passes_containment_example _ "payload.sh")|].
  repeat split; vm_compute; congruence.
Qed.

(** C6, amended. For a candidate that passes the traversal screen, the
    absolute-path test and the containment test: if the final component
    of the canonical path is exactly as long as the configured maximum,
    the candidate is accepted provided the allow-list step lets its
    extension through; if it is one character longer, the candidate is
    rejected with FilenameTooLong. *)
Theorem validate_path_length_boundary (self : PathValidator) (os : OS)
    (path base_dir n : string) :
  PassesContainment self os path base_dir n ->
  (len (basename n) = max_filename_length self ->
   ExtensionPasses self (basename n) ->
   validate_path self os path base_dir = Accepted n)
  /\ (len (basename n) = (max_filename_length self + 1)%Z ->
      validate_path self os path base_dir
        = Rejected (FilenameTooLong (max_filename_length self))).
Proof.
  intros H. rewrite (validate_path_after_containment _ _ _ _ _ H). cbv zeta.
  split.
  - intros Hl He.
    replace (_ <? _)%Z with false by (symmetry; apply Z.ltb_ge; lia).
    destruct He as [He|[He|He]].
    + rewrite bool_decide_eq_false_2; [done|]. by intros Hn.
    + rewrite He, String.eqb_refl. simpl. by destruct (bool_decide _).
    + rewrite (bool_decide_eq_false_2 (_ ∉ _)) by (by intros Hn).
      rewrite andb_false_r. by destruct (bool_decide _).
  - intros Hl.
    by replace (_ <? _)%Z with true by (symmetry; apply Z.ltb_lt; lia).
Qed.

Lemma validate_path_length_boundary_witness :
  PassesContainment short_policy example_os "clip12.mp4" "/tmp/dl"
    "/tmp/dl/clip12.mp4"
  /\ len (basename "/tmp/dl/clip12.mp4") = max_filename_length short_policy
  /\ ExtensionPasses short_policy (basename "/tmp/dl/clip12.mp4")
  /\ validate_path short_policy example_os "clip12.mp4" "/tmp/dl"
       = Accepted "/tmp/dl/clip12.mp4"
  /\ PassesContainment short_policy example_os "clip123.mp4" "/tmp/dl"
       "/tmp/dl/clip123.mp4"
  /\ len (basename "/tmp/dl/clip123.mp4")
       = (max_filename_length short_policy + 1)%Z
  /\ validate_path short_policy example_os "clip123.mp4" "/tmp/dl"
       = Rejected (FilenameTooLong 10).
Proof.
  assert (H1 : PassesContainment short_policy example_os "clip12.mp4" "/tmp/dl"
                 "/tmp/dl/clip12.mp4")
    by (by apply (passes_containment_example _ "clip12.mp4")).
  assert (H2 : PassesContainment short_policy example_os "clip123.mp4" "/tmp/dl"
                 "/tmp/dl/clip123.mp4")
    by (by apply (passes_containment_example _ "clip123.mp4")).
  assert (E : ExtensionPasses short_policy (basename "/tmp/dl/clip12.mp4")).
  { right; right. decide_by_compute. }
  split; [exact H1|]. split; [reflexivity|]. split; [exact E|].
  split; [|split; [exact H2|split; [reflexivity|]]].
  - apply (proj1 (validate_path_length_boundary short_policy example_os
                    "clip12.mp4" "/tmp/dl" "/tmp/dl/clip12.mp4" H1));
      [reflexivity|exact E].
  - apply (proj2 (validate_path_length_boundary short_policy example_os
                    "clip123.mp4" "/tmp/dl" "/tmp/dl/clip123.mp4" H2)).
    reflexivity.
Defined.



End ValidatePath.

(** ** Configuration lookup *)

Section ConfigGet.
Import SecureConfigManager.

Lemma get_keys_reaches (keys : list string) (t default w : Value) :
  Reaches t keys w -> get_keys keys t default = w.
Proof.
  induction 1 as [t|m key keys v w Hk _ IH]; simpl; [done|].
  by rewrite Hk.
Qed.

Lemma get_keys_app (ks1 ks2 : list string) (t default node : Value) :
  Reaches t ks1 node ->
  get_keys (ks1 ++ ks2)%list t default = get_keys ks2 node default.
Proof.
  induction 1 as [t|m key keys v w Hk _ IH]; simpl; [done|].
  by rewrite Hk.
Qed.

Lemma get_keys_stuck (key : string) (keys : list string) (t default : Value) :
  Stuck t key -> get_keys (key :: keys) t default = default.
Proof.
  destruct t as [| | | | |m]; simpl; try done.
  by intros ->.
Qed.

Lemma get_keys_cases (keys : list string) (t : Value) :
  (exists w, Reaches t keys w)
  \/ exists ks1 key ks2 node,
       keys = (ks1 ++ key :: ks2)%list /\ Reaches t ks1 node /\ Stuck node key.
Proof.
  revert t. induction keys as [|key keys IH]; intros t.
  - left. exists t. constructor.
  - destruct t as [| | | | |m];
      try (right; exists [], key, keys; eexists; repeat split; constructor).
    destruct (m !! key) as [v|] eqn:Hk.
    + destruct (IH v) as [[w Hw]|(ks1 & k & ks2 & node & -> & Hr & Hs)].
      * left. exists w. by econstructor.
      * right. exists (key :: ks1), k, ks2, node.
        repeat split; [by econstructor|done].
    + right. exists [], key, keys, (VDict m). repeat split; [constructor|done].
Qed.

(** C9. [get] walks the tree one key segment of the dotted path at a
    time. It always returns: the value reached when every segment is
    present in a mapping, and the caller's default as soon as a segment is
    missing or the node at hand is no mapping, whatever segments follow.
    One of the two cases always applies. *)
Theorem get_default_on_first_miss (config : Value) (path : string)
    (default : Value) :
  (forall w, Reaches config (PyStr.split "."%char path) w ->
             get config path default = w)
  /\ (forall ks1 key ks2 node,
        PyStr.split "."%char path = (ks1 ++ key :: ks2)%list ->
        Reaches config ks1 node -> Stuck node key ->
        get config path default = default)
  /\ ((exists w, Reaches config (PyStr.split "."%char path) w)
      \/ exists ks1 key ks2 node,
           PyStr.split "."%char path = (ks1 ++ key :: ks2)%list
           /\ Reaches config ks1 node /\ Stuck node key).
Proof.
  unfold get. split; [|split].
  - intros w Hw. by apply get_keys_reaches.
  - intros ks1 key ks2 node -> Hr Hs.
    rewrite (get_keys_app _ _ _ _ _ Hr). by apply get_keys_stuck.
  - apply get_keys_cases.
Qed.

End ConfigGet.

(** ** Locations and download paths *)

Section DownloadPaths.
Import PyStr PosixPath Locations.

Lemma items_cons (key : string) (ks : list string) (m : gmap string Value) :
  items (key :: ks) m =
    match m !! key with
    | Some v => (key, v) :: items ks m
    | None => items ks m
    end.
Proof. unfold items. simpl. by destruct (m !! key). Qed.

Lemma build_loop_lookup_out (os : OS) (m : gmap string Value)
    (ks : list string) (acc locs : gmap string Location) (k : string) :
  build_loop os (items ks m) acc = Ok locs ->
  k ∉ ks \/ m !! k = None -> locs !! k = acc !! k.
Proof.
  revert acc. induction ks as [|k0 ks IH]; intros acc Hb Hk.
  - by injection Hb as <-.
  - rewrite items_cons in Hb.
    assert (Hk' : k ∉ ks \/ m !! k = None).
    { destruct Hk as [Hk|Hk]; [left|by right].
      intros Hin. apply Hk. by apply list_elem_of_further. }
    destruct (m !! k0) as [v0|] eqn:H0; [|by apply IH].
    simpl in Hb. destruct v0 as [|p| | | |]; try done.
    destruct (expanduser os p) as [e|]; [|done].
    rewrite (IH _ Hb Hk'). apply lookup_insert_ne.
    intros ->. destruct Hk as [Hk|Hk]; [|congruence].
    apply Hk, list_elem_of_here.
Qed.

Lemma build_loop_lookup_in (os : OS) (m : gmap string Value)
    (ks : list string) (acc locs : gmap string Location) (k : string)
    (v : Value) :
  build_loop os (items ks m) acc = Ok locs ->
  k ∈ ks -> m !! k = Some v ->
  is_Some (location_of os v) /\ locs !! k = location_of os v.
Proof.
  revert acc. induction ks as [|k0 ks IH]; intros acc Hb Hin Hv.
  - by apply elem_of_nil in Hin.
  - rewrite items_cons in Hb.
    destruct (decide (k ∈ ks)) as [Hks|Hks].
    + destruct (m !! k0) as [v0|]; [|by eapply IH].
      simpl in Hb. destruct v0 as [|p| | | |]; try done.
      destruct (expanduser os p) as [e|]; [|done]. by eapply IH.
    + apply elem_of_cons in Hin as [->|?]; [|done].
      rewrite Hv in Hb. simpl in Hb. destruct v as [|p| | | |]; try done.
      simpl. destruct (expanduser os p) as [e|]; [|done].
      split; [by eexists|].
      rewrite (build_loop_lookup_out _ _ _ _ _ k0 Hb) by (by left).
      apply lookup_insert_eq.
Qed.

Lemma build_loop_succeeds (os : OS) (m : gmap string Value)
    (ks : list string) (acc : gmap string Location) :
  (forall k v, k ∈ ks -> m !! k = Some v -> is_Some (location_of os v)) ->
  exists locs, build_loop os (items ks m) acc = Ok locs.
Proof.
  revert acc. induction ks as [|k0 ks IH]; intros acc H.
  - by eexists.
  - rewrite items_cons.
    assert (H' : forall k v, k ∈ ks -> m !! k = Some v ->
                             is_Some (location_of os v)).
    { intros k v Hk. apply H. by apply list_elem_of_further. }
    destruct (m !! k0) as [v0|] eqn:H0; [|by apply IH].
    destruct (H k0 v0 (list_elem_of_here _ _) H0) as [l Hl].
    simpl. destruct v0 as [|p| | | |]; try done. simpl in Hl.
    destruct (expanduser os p) as [e|]; [|done]. by apply IH.
Qed.

Lemma build_locations_built (os : OS) (self : LocationManager)
    (m : gmap string Value) (locs : gmap string Location) :
  Configured self m -> _build_locations os self = Ok locs ->
  locs = omap (location_of os) m.
Proof.
  intros (Hg & Hm & Ho & _) Hb. unfold _build_locations in Hb.
  rewrite Hg in Hb.
  apply map_eq. intros k. rewrite lookup_omap.
  destruct (m !! k) as [v|] eqn:Hk; simpl.
  - apply (build_loop_lookup_in _ _ _ _ _ _ _ Hb); [|done].
    apply Ho. by eexists.
  - rewrite (build_loop_lookup_out _ _ _ _ _ k Hb) by (by right).
    apply lookup_empty.
Qed.

Lemma build_locations_configured (os : OS) (self : LocationManager)
    (m : gmap string Value) :
  Configured self m -> Expandable os m ->
  _build_locations os self = Ok (omap (location_of os) m).
Proof.
  intros Hc He. pose proof Hc as (Hg & Hm & Ho & _).
  destruct (build_loop_succeeds os m (configured_order self) ∅) as [locs Hl].
  { intros k v _ Hk. specialize (Hm _ _ Hk). simpl in Hm.
    destruct v as [|p| | | |]; try done. simpl.
    destruct (He _ _ Hk) as [e ->]. by eexists. }
  assert (Hb : _build_locations os self = Ok locs).
  { unfold _build_locations. by rewrite Hg. }
  by rewrite Hb, (build_locations_built _ _ _ _ Hc Hb).
Qed.

Lemma init_cache_inv (config : Value) (order : list string)
    (self : LocationManager) :
  Locations.init config order = Some self -> cache_inv self.
Proof.
  unfold Locations.init. destruct (Validator.init config); simpl; [|done].
  by intros [= <-].
Qed.

Lemma get_locations_configured (os : OS) (self : LocationManager)
    (m : gmap string Value) :
  Configured self m -> Expandable os m ->
  get_locations os self
  = (Ok (locations_of os self m),
     {| config := config self; configured_order := configured_order self;
        validator := validator self;
        _locations_cache := Some (locations_of os self m) |}).
Proof.
  intros Hc He. pose proof (build_locations_configured _ _ _ Hc He) as Hb.
  unfold get_locations, locations_of in *.
  destruct self as [c o v [l|]]; simpl in *; [done|]. by rewrite Hb.
Qed.

Lemma get_locations_cache_inv (os : OS) (self : LocationManager)
    (m : gmap string Value) :
  Configured self m -> Expandable os m -> cache_inv self ->
  cache_inv (get_locations os self).2.
Proof.
  intros Hc He Hi. rewrite (get_locations_configured _ _ _ Hc He).
  unfold cache_inv, locations_of in *. simpl.
  destruct (_locations_cache self) as [l|] eqn:E.
  - destruct Hi as [os' Hos']. exists os'. exact Hos'.
  - exists os. apply (build_locations_configured os _ m Hc He).
Qed.

Lemma locations_of_unknown (os : OS) (self : LocationManager)
    (m : gmap string Value) (location_id : string) :
  Configured self m -> cache_inv self -> m !! location_id = None ->
  locations_of os self m !! location_id = None.
Proof.
  intros Hc Hi Hm. unfold locations_of, cache_inv in *.
  destruct (_locations_cache self) as [l|].
  - destruct Hi as [os' Hos'].
    rewrite (build_locations_built _ _ _ _ Hc Hos').
    by rewrite lookup_omap, Hm.
  - by rewrite lookup_omap, Hm.
Qed.

Lemma validate_location_unknown (os : OS) (self : LocationManager)
    (m : gmap string Value) (location_id : string) :
  Configured self m -> Expandable os m -> cache_inv self ->
  m !! location_id = None ->
  validate_location os location_id self
  = (Ok (Rejected (UnknownLocation location_id
                     (keys_in_order (configured_order self)
                                    (locations_of os self m)))),
     {| config := config self; configured_order := configured_order self;
        validator := validator self;
        _locations_cache := Some (locations_of os self m) |}).
Proof.
  intros Hc He Hi Hm. unfold validate_location, bind.
  rewrite (get_locations_configured _ _ _ Hc He).
  by rewrite (locations_of_unknown _ _ _ _ Hc Hi Hm).
Qed.

(** [construct_download_path] leaves the manager as [get_locations] left
    it, so it keeps the invariant of the cache. *)
Lemma construct_download_path_state (os : OS) (self : LocationManager)
    (location_id : string) (relative_path filename_template : option string) :
  (construct_download_path os location_id relative_path filename_template
     self).2
  = (get_locations os self).2.
Proof.
  unfold construct_download_path, validate_location, bind.
  destruct (get_locations os self) as [[locations|e] self']; simpl; [|done].
  destruct (locations !! location_id) as [l|]; simpl; [|done].
  destruct (writable l); simpl; [|done].
  by destruct (full_relative self' relative_path filename_template).
Qed.

Lemma construct_download_path_cache_inv (os : OS) (self : LocationManager)
    (m : gmap string Value) (location_id : string)
    (relative_path filename_template : option string) :
  Configured self m -> Expandable os m -> cache_inv self ->
  cache_inv (construct_download_path os location_id relative_path
               filename_template self).2.
Proof.
  intros Hc He Hi. rewrite construct_download_path_state.
  by apply (get_locations_cache_inv os self m).
Qed.



Lemma init_tmp_dl :
  Locations.init tmp_dl_config ["default"] = Some tmp_dl_manager.
Proof. vm_compute. reflexivity. Qed.

Lemma init_tmp_dl_lenient :
  Locations.init tmp_dl_lenient_config ["default"]
  = Some tmp_dl_lenient_manager.
Proof. vm_compute. reflexivity. Qed.

Lemma singleton_order (key : string) (v : Value) (k : string) :
  k ∈ [key] <-> is_Some (({[key := v]} : gmap string Value) !! k).
Proof.
  rewrite list_elem_of_singleton. split.
  - intros ->. rewrite lookup_singleton_eq. by eexists.
  - intros [x Hx]. apply lookup_singleton_Some in Hx as [? _]. done.
Qed.

Lemma tmp_dl_configured :
  Configured tmp_dl_manager {["default" := VStr "/tmp/dl"]}.
Proof.
  split; [vm_compute; reflexivity|]. split; [|split].
  - by apply map_Forall_singleton.
  - apply singleton_order.
  - apply NoDup_singleton.
Qed.

Lemma tmp_dl_expandable (os : OS) :
  expanduser os "/tmp/dl" = Some "/tmp/dl" ->
  Expandable os {["default" := VStr "/tmp/dl"]}.
Proof.
  intros He key p Hk. apply lookup_singleton_Some in Hk as [_ [= <-]].
  rewrite He. by eexists.
Qed.


(** With the built-in policy the traversal candidate of the end-to-end
    example is stopped by the textual screen: the location "default" is
    writable with base directory /tmp/dl, and the reason returned is
    PathTraversalDetected, not PathEscapesBase. *)
Lemma traversal_candidate_stopped_by_screen :
  (validate_location example_os "default" tmp_dl_manager).1
    = Ok (Accepted "/tmp/dl")
  /\ (construct_download_path example_os "default"
        (Some "../../etc") (Some "passwd") tmp_dl_manager).1
     = Ok (Rejected PathTraversalDetected)
  /\ forall d,
       (construct_download_path example_os "default"
          (Some "../../etc") (Some "passwd") tmp_dl_manager).1
       <> Ok (Rejected (PathEscapesBase d)).
Proof.
  split; [vm_compute; reflexivity|].
  assert (E : (construct_download_path example_os "default"
                 (Some "../../etc") (Some "passwd") tmp_dl_manager).1
              = Ok (Rejected PathTraversalDetected))
    by (vm_compute; reflexivity).
  split; [exact E|]. intros d. rewrite E. discriminate.
Qed.

(** C3, amended. On a system without symbolic links, with the writable
    location "default" at /tmp/dl: the path built from "clips" and
    "movie.mp4" is accepted as /tmp/dl/clips/movie.mp4; the path built
    from "../../etc" and "passwd" is rejected with PathTraversalDetected
    under the built-in policy, where traversal enforcement is on, and with
    PathEscapesBase when traversal enforcement is off. *)
Theorem construct_download_path_end_to_end (home cwd : string) :
  (validate_location (posix_nolinks home cwd) "default" tmp_dl_manager).1
    = Ok (Accepted "/tmp/dl")
  /\ (construct_download_path (posix_nolinks home cwd) "default"
        (Some "clips") (Some "movie.mp4") tmp_dl_manager).1
     = Ok (Accepted "/tmp/dl/clips/movie.mp4")
  /\ (construct_download_path (posix_nolinks home cwd) "default"
        (Some "../../etc") (Some "passwd") tmp_dl_manager).1
     = Ok (Rejected PathTraversalDetected)
  /\ (construct_download_path (posix_nolinks home cwd) "default"
        (Some "../../etc") (Some "passwd") tmp_dl_lenient_manager).1
     = Ok (Rejected (PathEscapesBase "/tmp/dl")).
Proof. repeat split; vm_compute; reflexivity. Qed.

End DownloadPaths.

(** ** Deep merge of configuration trees *)

Section DeepMerge.
Import SecureConfigManager.

Lemma deep_merge_lookup (base update : gmap string Value) (key : string) :
  _deep_merge base update !! key =
    match update !! key with
    | None => base !! key
    | Some value =>
        match base !! key, value with
        | Some (VDict r), VDict u => Some (VDict (_deep_merge r u))
        | _, _ => Some value
        end
    end.
Proof.
  unfold _deep_merge. simpl. revert key.
  apply (map_fold_weak_ind
           (fun (result : gmap string Value) (items : gmap string Value) =>
              forall key, result !! key =
                match items !! key with
                | None => base !! key
                | Some value =>
                    match base !! key, value with
                    | Some (VDict r), VDict u =>
                        Some (VDict (deep_merge_items r (VDict u)))
                    | _, _ => Some value
                    end
                end)).
  - intros key. by rewrite lookup_empty.
  - intros i x m r Hi IH key.
    assert (Hr : r !! i = base !! i) by (by rewrite IH, Hi).
    destruct (decide (i = key)) as [<-|Hne].
    + rewrite lookup_insert_eq, Hr.
      destruct (base !! i) as [[| | | | |b]|]; try by rewrite lookup_insert_eq.
      destruct x; by rewrite lookup_insert_eq.
    + rewrite (lookup_insert_ne m) by done. rewrite <- IH.
      destruct (r !! i) as [[| | | | |b]|]; try by rewrite lookup_insert_ne.
      destruct x; by rewrite lookup_insert_ne.
Qed.

(** X1. Key by key, the merged dictionary holds the base's entry where
    the override has none, the merge of the two entries where both are
    mappings, and the override's entry in every other case. *)
Theorem deep_merge_per_key (base update : gmap string Value) (key : string) :
  (update !! key = None ->
   _deep_merge base update !! key = base !! key)
  /\ (forall r u, base !! key = Some (VDict r) -> update !! key = Some (VDict u) ->
      _deep_merge base update !! key = Some (VDict (_deep_merge r u)))
  /\ (forall value, update !! key = Some value ->
      is_dict value = false \/ base !! key = None
      \/ (exists b, base !! key = Some b /\ is_dict b = false) ->
      _deep_merge base update !! key = Some value).
Proof.
  rewrite deep_merge_lookup. split; [|split].
  - by intros ->.
  - by intros r u -> ->.
  - intros value -> [Hv|[Hb|(b & Hb & Hd)]].
    + destruct value; try done. all: by destruct (base !! key) as [[]|].
    + by rewrite Hb.
    + rewrite Hb. by destruct b.
Qed.

(** X2. The keys of the merged dictionary are those of the base together
    with those of the override: a merge never drops a key. *)
Theorem deep_merge_dom (base update : gmap string Value) :
  dom (_deep_merge base update) = dom base ∪ dom update.
Proof.
  apply set_eq. intros key.
  rewrite elem_of_union, !elem_of_dom, deep_merge_lookup.
  destruct (update !! key) as [v|] eqn:Hu.
  - split; [intros _; right; eauto|intros _].
    destruct (base !! key) as [[]|]; destruct v; eauto.
  - split; [by left|]. intros [H|[x Hx]]; [done|discriminate].
Qed.

(** X3. An empty override leaves the base as it is, and an override
    merged into an empty base is returned as it is. *)
Theorem deep_merge_empty (m : gmap string Value) :
  _deep_merge m ∅ = m /\ _deep_merge ∅ m = m.
Proof.
  split; apply map_eq; intros key; rewrite deep_merge_lookup.
  - by rewrite lookup_empty.
  - rewrite lookup_empty. by destruct (m !! key).
Qed.

Lemma reaches_leaf_inv (v w : Value) (keys : list string) :
  Reaches v keys w -> is_dict v = false -> keys = [] /\ w = v.
Proof. destruct 1; [done|]. discriminate. Qed.

Lemma get_keys_merged_override (keys : list string)
    (base update : gmap string Value) (default w : Value) :
  Reaches (VDict update) keys w -> is_dict w = false ->
  get_keys keys (VDict (_deep_merge base update)) default = w.
Proof.
  revert base update. induction keys as [|key keys IH]; intros base update Hr Hw.
  - inversion Hr; subst. discriminate.
  - inversion Hr as [|m k ks v w' Hk Hv]; subst. simpl.
    rewrite deep_merge_lookup, Hk.
    destruct v as [| | | | |u].
    1-5: apply reaches_leaf_inv in Hv as [-> ->]; [|done];
         by destruct (base !! key) as [[]|].
    destruct (base !! key) as [[| | | | |r]|]; try by apply get_keys_reaches.
    by apply IH.
Qed.

Lemma get_keys_leaf (keys : list string) (v default : Value) :
  is_dict v = false -> keys <> [] -> get_keys keys v default = default.
Proof. destruct keys; [done|]. by destruct v. Qed.

Lemma get_keys_merged_default (ks1 : list string) (key : string)
    (ks2 : list string) (base update um : gmap string Value) (default : Value) :
  Reaches (VDict update) ks1 (VDict um) -> um !! key = None ->
  get_keys (ks1 ++ key :: ks2)%list (VDict (_deep_merge base update)) default
  = get_keys (ks1 ++ key :: ks2)%list (VDict base) default.
Proof.
  revert base update. induction ks1 as [|a ks1 IH]; intros base update Hr Hk.
  - inversion Hr; subst. simpl. by rewrite deep_merge_lookup, Hk.
  - inversion Hr as [|m k ks v w' Ha Hv]; subst. simpl.
    rewrite deep_merge_lookup, Ha.
    destruct v as [| | | | |u];
      try (apply reaches_leaf_inv in Hv as [_ Hv]; [discriminate|done]).
    assert (Hd : get_keys (ks1 ++ key :: ks2)%list (VDict u) default = default).
    { rewrite (get_keys_app _ _ _ _ _ Hv). by apply get_keys_stuck. }
    destruct (base !! a) as [[| | | | |r]|]; rewrite ?Hd; try done.
    + by destruct ks1.
    + by destruct ks1.
    + by destruct ks1.
    + by destruct ks1.
    + by destruct ks1.
    + by apply IH.
Qed.

(** X4. The override wins at any depth: a dotted path that leads, in the
    override, to a value that is no mapping leads to that same value in
    the merged tree, whatever the base holds. *)
Theorem get_merged_override (base update : gmap string Value)
    (path : string) (default w : Value) :
  Reaches (VDict update) (PyStr.split "."%char path) w ->
  is_dict w = false ->
  get (VDict (_deep_merge base update)) path default = w.
Proof. intros Hr Hw. by apply get_keys_merged_override. Qed.

Lemma get_merged_override_witness :
  Reaches (VDict short_names_override)
          (PyStr.split "."%char "security.max_filename_length") (VInt 64)
  /\ is_dict (VInt 64) = false
  /\ get (VDict (_deep_merge default_dict short_names_override))
         "security.max_filename_length" VNone = VInt 64.
Proof.
  assert (Hr : Reaches (VDict short_names_override)
                 (PyStr.split "."%char "security.max_filename_length") (VInt 64)).
  { change (PyStr.split "."%char "security.max_filename_length")
      with ["security"; "max_filename_length"].
    unfold short_names_override.
    eapply reaches_step; [apply lookup_singleton_eq|].
    eapply reaches_step; [apply lookup_singleton_eq|].
    apply reaches_here. }
  split; [exact Hr|]. split; [reflexivity|].
  apply (get_merged_override default_dict short_names_override
           "security.max_filename_length" VNone (VInt 64) Hr).
  reflexivity.
Defined.

(** X5. Defaults survive next to overridden siblings: when the override
    follows a dotted path through mappings up to a mapping that lacks the
    next segment, the merged tree answers the whole path as the base
    does. *)
Theorem get_merged_default (base update um : gmap string Value)
    (path : string) (default : Value)
    (ks1 : list string) (key : string) (ks2 : list string) :
  PyStr.split "."%char path = (ks1 ++ key :: ks2)%list ->
  Reaches (VDict update) ks1 (VDict um) ->
  um !! key = None ->
  get (VDict (_deep_merge base update)) path default
  = get (VDict base) path default.
Proof.
  intros Hs Hr Hk. unfold get. rewrite Hs.
  by apply (get_keys_merged_default _ _ _ _ _ um).
Qed.

Lemma get_merged_default_witness :
  PyStr.split "."%char "security.block_path_traversal"
    = (["security"] ++ "block_path_traversal" :: [])%list
  /\ Reaches (VDict short_names_override) ["security"]
             (VDict {["max_filename_length" := VInt 64]})
  /\ ({["max_filename_length" := VInt 64]} : gmap string Value)
       !! "block_path_traversal" = None
  /\ get (VDict (_deep_merge default_dict short_names_override))
         "security.block_path_traversal" VNone
     = get (VDict default_dict) "security.block_path_traversal" VNone.
Proof.
  assert (Hr : Reaches (VDict short_names_override) ["security"]
                 (VDict {["max_filename_length" := VInt 64]})).
  { unfold short_names_override.
    eapply reaches_step; [apply lookup_singleton_eq|apply reaches_here]. }
  assert (Hk : ({["max_filename_length" := VInt 64]} : gmap string Value)
                 !! "block_path_traversal" = None)
    by (by apply lookup_singleton_ne).
  split; [reflexivity|]. split; [exact Hr|]. split; [exact Hk|].
  apply (get_merged_default default_dict short_names_override
           {["max_filename_length" := VInt 64]}
           "security.block_path_traversal" VNone
           ["security"] "block_path_traversal" []);
    [reflexivity|exact Hr|exact Hk].
Defined.

End DeepMerge.

Section DeepMergeTwice.
Import SecureConfigManager.

Lemma depth_child (m : gmap string Value) (key : string) (v : Value) :
  m !! key = Some v -> (depth v < depth (VDict m))%nat.
Proof.
  intros Hk. change (depth (VDict m))
    with (S (map_fold (fun _ child acc => Nat.max (depth child) acc) 0%nat m)).
  apply Nat.lt_succ_r. revert key v Hk.
  apply (map_fold_weak_ind
           (fun (acc : nat) (m : gmap string Value) =>
              forall key v, m !! key = Some v -> (depth v <= acc)%nat)).
  - intros key v. by rewrite lookup_empty.
  - intros i x m' r Hi IH key v Hk.
    destruct (decide (i = key)) as [<-|Hne].
    + rewrite lookup_insert_eq in Hk. injection Hk as <-. lia.
    + rewrite lookup_insert_ne in Hk by done. specialize (IH _ _ Hk). lia.
Qed.

Lemma deep_merge_self_bounded (n : nat) (u : gmap string Value) :
  (depth (VDict u) <= n)%nat -> _deep_merge u u = u.
Proof.
  revert u. induction n as [|n IH]; intros u Hn.
  - pose proof (depth_child u) as Hc. apply map_eq. intros key.
    rewrite deep_merge_lookup. destruct (u !! key) as [v|] eqn:Hk; [|done].
    specialize (Hc _ _ Hk). lia.
  - apply map_eq. intros key. rewrite deep_merge_lookup.
    destruct (u !! key) as [v|] eqn:Hk; [|done].
    destruct v as [| | | | |r]; try done.
    rewrite IH; [done|]. pose proof (depth_child _ _ _ Hk). lia.
Qed.

Lemma deep_merge_twice_bounded (n : nat) (base u : gmap string Value) :
  (depth (VDict u) <= n)%nat ->
  _deep_merge (_deep_merge base u) u = _deep_merge base u.
Proof.
  revert base u. induction n as [|n IH]; intros base u Hn;
    apply map_eq; intros key;
    rewrite (deep_merge_lookup (_deep_merge base u)), (deep_merge_lookup base);
    destruct (u !! key) as [v|] eqn:Hk; try done;
    pose proof (depth_child _ _ _ Hk) as Hd; [lia|].
  destruct v as [| | | | |r].
  1-5: by destruct (base !! key) as [[]|].
  assert (Hr : (depth (VDict r) <= n)%nat) by lia.
  destruct (base !! key) as [[| | | | |b]|];
    rewrite ?(deep_merge_self_bounded n r Hr); try done.
  by rewrite IH.
Qed.

(** X6. Merging the same override a second time changes nothing. *)
Theorem deep_merge_idempotent (base update : gmap string Value) :
  _deep_merge (_deep_merge base update) update = _deep_merge base update.
Proof. by apply (deep_merge_twice_bounded (depth (VDict update))). Qed.

Lemma get_merged_top_level (base update : gmap string Value)
    (path : string) (default : Value) (key : string) (rest : list string) :
  PyStr.split "."%char path = key :: rest ->
  update !! key = None ->
  get (VDict (_deep_merge base update)) path default
  = get (VDict base) path default.
Proof.
  intros Hs Hk. unfold get. rewrite Hs.
  by apply (get_keys_merged_default [] key rest base update update default
              (reaches_here _)).
Qed.

(** X7. Whatever [_load_config] finds - no file, a file that does not
    parse, or a file whose dictionary has no "security" table - the
    validator built from the loaded tree has the built-in policy. *)
Theorem load_config_keeps_policy (file : ConfigFile) :
  match file with
  | Parsed user_config => user_config !! "security" = None
  | _ => True
  end ->
  Validator.init (_load_config file) = Some default_policy.
Proof.
  destruct file as [| |u]; intros Hf;
    [exact init_default_config|exact init_default_config|].
  unfold Validator.init, _load_config.
  rewrite (get_merged_top_level default_dict u "security.allowed_extensions"
             (VList []) "security" ["allowed_extensions"] eq_refl Hf).
  rewrite (get_merged_top_level default_dict u "security.max_filename_length"
             (VInt 255) "security" ["max_filename_length"] eq_refl Hf).
  rewrite (get_merged_top_level default_dict u "security.block_path_traversal"
             (VBool true) "security" ["block_path_traversal"] eq_refl Hf).
  exact init_default_config.
Qed.

Lemma load_config_keeps_policy_witness :
  ({["download_locations" := VDict {["default" := VStr "/tmp/dl"]}]}
     : gmap string Value) !! "security" = None
  /\ Validator.init
       (_load_config
          (Parsed {["download_locations" := VDict {["default" := VStr "/tmp/dl"]}]}))
     = Some default_policy.
Proof.
  split; [reflexivity|].
  apply (load_config_keeps_policy
           (Parsed {["download_locations" := VDict {["default" := VStr "/tmp/dl"]}]})).
  reflexivity.
Defined.

End DeepMergeTwice.

(** ** Dotted paths *)

Section DottedPaths.
Import PyStr SecureConfigManager.

Lemma split_nonempty (c : ascii) (s : string) : split c s <> [].
Proof.
  induction s as [|x s IH]; simpl; [done|].
  destruct (Ascii.eqb x c); [done|]. by destruct (split c s).
Qed.

Lemma split_app (c : ascii) (a b : string) :
  split c (a ++ String c b) = (split c a ++ split c b)%list.
Proof.
  induction a as [|x a IH]; simpl.
  - by rewrite Ascii.eqb_refl.
  - destruct (Ascii.eqb x c); rewrite IH; [done|].
    pose proof (split_nonempty c a). by destruct (split c a).
Qed.

(** X8. Lookups compose along the dots: when the path [a] leads to the
    node [t], the path [a.b] is answered as [b] is from [t]. *)
Theorem get_dotted_compose (config t default : Value) (a b : string) :
  Reaches config (split "."%char a) t ->
  get config (a ++ "." ++ b) default = get t b default.
Proof.
  intros Hr. unfold get.
  change (a ++ "." ++ b) with (a ++ String "."%char b).
  rewrite split_app. by apply get_keys_app.
Qed.

Lemma get_dotted_compose_witness :
  Reaches default_config (split "."%char "ytdlp")
    (get default_config "ytdlp" VNone)
  /\ get default_config ("ytdlp" ++ "." ++ "default_format") VNone
     = get (get default_config "ytdlp" VNone) "default_format" VNone.
Proof.
  assert (Hr : Reaches default_config (split "."%char "ytdlp")
                 (get default_config "ytdlp" VNone)).
  { eapply reaches_step; [vm_compute; reflexivity|apply reaches_here]. }
  split; [exact Hr|].
  apply (get_dotted_compose default_config _ VNone "ytdlp" "default_format" Hr).
Defined.

End DottedPaths.

(** ** The traversal screen and the sanitizer *)

Section Screen.
Import PyStr PosixPath Validator.

Lemma startswith_mapped (F : string -> string) (f : ascii -> ascii) :
  F "" = "" -> (forall c s, F (String c s) = String (f c) (F s)) ->
  forall pat s, chars_fixed f pat -> startswith (F s) pat = startswith s pat.
Proof.
  intros Hnil Hcons pat. induction pat as [|a pat IH]; intros s Hf; [done|].
  destruct Hf as [Ha Hf]. destruct s as [|c s].
  - by rewrite Hnil.
  - rewrite Hcons. simpl. by rewrite Ha, IH.
Qed.

Lemma contains_mapped (F : string -> string) (f : ascii -> ascii) :
  F "" = "" -> (forall c s, F (String c s) = String (f c) (F s)) ->
  forall pat s, chars_fixed f pat -> contains pat (F s) = contains pat s.
Proof.
  intros Hnil Hcons pat s Hf. induction s as [|c s IH].
  - by rewrite Hnil.
  - pose proof (startswith_mapped F f Hnil Hcons pat (String c s) Hf) as Hs.
    rewrite Hcons in *. simpl contains. by rewrite Hs, IH.
Qed.

Lemma lower_fixes_dot c : Ascii.eqb "." (lower_char c) = Ascii.eqb "." c.
Proof. destruct c as [[] [] [] [] [] [] [] []]; reflexivity. Qed.

Lemma lower_fixes_slash c : Ascii.eqb "/" (lower_char c) = Ascii.eqb "/" c.
Proof. destruct c as [[] [] [] [] [] [] [] []]; reflexivity. Qed.

Lemma lower_fixes_backslash c : Ascii.eqb "\" (lower_char c) = Ascii.eqb "\" c.
Proof. destruct c as [[] [] [] [] [] [] [] []]; reflexivity. Qed.

Lemma sanitize_fixes_dot c : Ascii.eqb "." (sanitize_char c) = Ascii.eqb "." c.
Proof. destruct c as [[] [] [] [] [] [] [] []]; reflexivity. Qed.

Lemma sanitize_fixes_slash c : Ascii.eqb "/" (sanitize_char c) = Ascii.eqb "/" c.
Proof. destruct c as [[] [] [] [] [] [] [] []]; reflexivity. Qed.

Lemma sanitize_fixes_backslash c :
  Ascii.eqb "\" (sanitize_char c) = Ascii.eqb "\" c.
Proof. destruct c as [[] [] [] [] [] [] [] []]; reflexivity. Qed.

Lemma contains_lower_traversal (pat s : string) :
  pat = "../" \/ pat = "..\" \/ pat = "..\\" \/ pat = "..//" ->
  contains pat (lower s) = contains pat s.
Proof.
  intros H. apply (contains_mapped lower lower_char); [done|done|].
  destruct H as [-> | [-> | [-> | ->]]]; simpl; repeat split;
    first [apply lower_fixes_dot | apply lower_fixes_slash
          | apply lower_fixes_backslash].
Qed.

Lemma contains_sanitized_traversal (pat s : string) :
  pat = "../" \/ pat = "..\" ->
  contains pat (sanitize_template_vars s) = contains pat s.
Proof.
  intros H.
  apply (contains_mapped sanitize_template_vars sanitize_char);
    [done|apply sanitize_cons|].
  destruct H as [-> | ->]; simpl; repeat split;
    first [apply sanitize_fixes_dot | apply sanitize_fixes_slash
          | apply sanitize_fixes_backslash].
Qed.

Lemma contains_extended (pat : string) (x : ascii) (s : string) :
  contains (pat ++ String x "") s = true -> contains pat s = true.
Proof.
  intros H. apply contains_inv in H as (a & b & ->).
  rewrite append_assoc. apply contains_app.
Qed.

Lemma contains_traversal_plain (path : string) :
  _contains_traversal path = contains "../" path || contains "..\" path.
Proof.
  unfold _contains_traversal, dangerous_patterns. simpl existsb.
  rewrite !contains_lower_traversal by tauto.
  pose proof (contains_extended "..\" "\" path) as H1.
  pose proof (contains_extended "../" "/" path) as H2.
  simpl in H1, H2.
  destruct (contains "../" path), (contains "..\" path); simpl; try done.
  destruct (contains "..\\" path); [by discriminate H1|].
  destruct (contains "..//" path); [by discriminate H2|done].
Qed.

(** X9. The traversal screen is a plain, case-sensitive test for the two
    sequences [../] and [..\]: lower-casing the candidate and the two
    longer patterns of the list change no answer. *)
Theorem contains_traversal_two_patterns (path : string) :
  _contains_traversal path = contains "../" path || contains "..\" path.
Proof. apply contains_traversal_plain. Qed.

(** X10. Sanitizing a candidate neither hides nor creates what the screen
    and the absolute-path test look for: the sanitized candidate is
    screened as the candidate is, and is absolute exactly when the
    candidate is. *)
Theorem sanitize_preserves_screening (template : string) :
  _contains_traversal (sanitize_template_vars template)
    = _contains_traversal template
  /\ isabs (sanitize_template_vars template) = isabs template.
Proof.
  split.
  - rewrite !contains_traversal_plain.
    by rewrite !contains_sanitized_traversal by tauto.
  - unfold isabs.
    apply (startswith_mapped sanitize_template_vars sanitize_char);
      [done|apply sanitize_cons|].
    simpl. split; [apply sanitize_fixes_slash|done].
Qed.

Lemma sanitize_app (a b : string) :
  sanitize_template_vars (a ++ b)
  = sanitize_template_vars a ++ sanitize_template_vars b.
Proof.
  induction a as [|c a IH]; [done|].
  simpl. rewrite !sanitize_cons. simpl. by rewrite IH.
Qed.

Lemma sanitize_clean (t : string) :
  (forall d, is_dangerous d = true -> contains (String d "") t = false) ->
  sanitize_template_vars t = t.
Proof.
  induction t as [|c t IH]; intros H; [done|].
  rewrite sanitize_cons, sanitize_char_spec.
  destruct (is_dangerous c) eqn:Hc.
  - specialize (H c Hc). rewrite contains_char_cons, Ascii.eqb_refl in H.
    discriminate.
  - rewrite IH; [done|]. intros d Hd. specialize (H d Hd).
    rewrite contains_char_cons in H. by apply orb_false_iff in H as [_ H].
Qed.

(** X11. The sanitizer changes a template exactly when the template holds
    a denylisted character: templates free of the seven characters are
    its fixed points, and no other string is. *)
Theorem sanitize_template_vars_fixed_points (t : string) :
  sanitize_template_vars t = t
  <-> Forall (fun d => contains (String d "") t = false)
             ["|"; "&"; ";"; "$"; "`"; ">"; "<"]%char.
Proof.
  split.
  - intros <-. repeat constructor; by apply sanitize_free.
  - intros H. apply sanitize_clean. intros d Hd.
    rewrite Forall_forall in H. apply H.
    unfold is_dangerous in Hd. apply existsb_exists in Hd as (x & Hx & Hdx).
    apply Ascii.eqb_eq in Hdx as ->. by apply list_elem_of_In.
Qed.

(** X12. The sanitizer works character by character, so it distributes
    over concatenation: sanitizing a candidate assembled from parts is
    assembling the sanitized parts. *)
Theorem sanitize_template_vars_app (a b : string) :
  sanitize_template_vars (a ++ b)
  = sanitize_template_vars a ++ sanitize_template_vars b.
Proof. apply sanitize_app. Qed.

End Screen.

(** ** What [validate_path] accepts *)

Section Acceptance.
Import PyStr PosixPath Validator.

Lemma startswith_app_cancel (b s p : string) :
  startswith (b ++ s) (b ++ p) = startswith s p.
Proof.
  induction b as [|c b IH]; simpl; [done|]. by rewrite Ascii.eqb_refl.
Qed.

Lemma append_eq_self (b s : string) : b ++ s = b -> s = "".
Proof.
  induction b as [|c b IH]; simpl; [done|]. intros [= H]. by apply IH.
Qed.

Lemma extension_step_passes (self : PathValidator) (filename : string) :
  ExtensionPasses self filename <->
  (if bool_decide (allowed_extensions self ≠ ∅) then
     negb (negb (String.eqb (extension filename) "")
           && bool_decide (extension filename ∉ allowed_extensions self))
   else true) = true.
Proof.
  unfold ExtensionPasses. case_bool_decide as Hne.
  - destruct (String.eqb_spec (extension filename) "") as [He|He]; simpl.
    + split; [done|]. intros _. by right; left.
    + case_bool_decide as Hin; simpl.
      * split; [|done]. by intros [?|[?|?]].
      * split; [done|]. intros _. right; right.
        by destruct (decide (extension filename ∈ allowed_extensions self)).
  - split; [done|]. intros _. left.
    by destruct (decide (allowed_extensions self = ∅)).
Qed.

(** X13. [validate_path] accepts exactly the candidates that pass all six
    steps, and then returns the canonical path [p]: the traversal screen
    is off or silent, the candidate is relative, [p] is the canonical
    composed path and lies in the canonical base, its final component is
    no longer than the maximum, and the allow-list lets its extension
    through. *)
Theorem validate_path_accepts_iff (self : PathValidator) (os : OS)
    (path base_dir p : string) :
  validate_path self os path base_dir = Accepted p
  <-> PassesContainment self os path base_dir p
      /\ (len (basename p) <= max_filename_length self)%Z
      /\ ExtensionPasses self (basename p).
Proof.
  split.
  - intros H. pose proof (validate_path_accepted_inv _ _ _ _ _ H) as Hp.
    split; [done|].
    rewrite (validate_path_after_containment _ _ _ _ _ Hp) in H.
    cbv zeta in H.
    destruct (Z.ltb_spec (max_filename_length self) (len (basename p)));
      [done|].
    split; [lia|]. apply extension_step_passes.
    destruct (bool_decide (allowed_extensions self ≠ ∅)); [|done].
    by destruct (negb _ && _).
  - intros (Hp & Hl & He).
    rewrite (validate_path_after_containment _ _ _ _ _ Hp). cbv zeta.
    replace (_ <? _)%Z with false by (symmetry; apply Z.ltb_ge; lia).
    apply extension_step_passes in He.
    destruct (bool_decide (allowed_extensions self ≠ ∅)); [|done].
    by destruct (negb _ && _).
Qed.

(** X14. Containment is tested on whole components: when the canonical
    composed path continues the canonical base with anything that does
    not start with the separator, the candidate is rejected with
    PathEscapesBase. A sibling directory whose name merely starts like the
    base is outside; and under the canonical base [/] every path [/x] is
    rejected, since the prefix tested is then [//]. *)
Theorem validate_path_rejects_prefix_sibling (self : PathValidator) (os : OS)
    (path base_dir base base_real suffix : string) :
  block_traversal self && _contains_traversal path = false ->
  isabs path = false ->
  expanduser os base_dir = Some base ->
  realpath os (join base path) = Some (base_real ++ suffix) ->
  realpath os base = Some base_real ->
  suffix <> "" ->
  startswith suffix "/" = false ->
  validate_path self os path base_dir = Rejected (PathEscapesBase base).
Proof.
  intros Ht Ha He Hn Hb Hs Hp. unfold validate_path.
  rewrite Ht, He, Ha, Hn, Hb. simpl negb.
  rewrite startswith_app_cancel, Hp.
  destruct (String.eqb_spec (base_real ++ suffix) base_real) as [E|E]; [|done].
  by apply append_eq_self in E.
Qed.

Lemma validate_path_rejects_prefix_sibling_witness :
  (block_traversal (validator tmp_dl_lenient_manager)
     && _contains_traversal "../dl-private/clip.mp4" = false
   /\ isabs "../dl-private/clip.mp4" = false
   /\ expanduser example_os "/tmp/dl" = Some "/tmp/dl"
   /\ realpath example_os (join "/tmp/dl" "../dl-private/clip.mp4")
      = Some ("/tmp/dl" ++ "-private/clip.mp4")
   /\ realpath example_os "/tmp/dl" = Some "/tmp/dl"
   /\ "-private/clip.mp4" <> ""
   /\ startswith "-private/clip.mp4" "/" = false)
  /\ validate_path (validator tmp_dl_lenient_manager) example_os
       "../dl-private/clip.mp4" "/tmp/dl"
     = Rejected (PathEscapesBase "/tmp/dl")
  /\ validate_path default_policy example_os "clip.mp4" "/"
     = Rejected (PathEscapesBase "/").
Proof.
  split; [repeat split; try reflexivity; discriminate|].
  split.
  - apply (validate_path_rejects_prefix_sibling
             (validator tmp_dl_lenient_manager) example_os
             "../dl-private/clip.mp4" "/tmp/dl" "/tmp/dl" "/tmp/dl"
             "-private/clip.mp4");
      try reflexivity; discriminate.
  - apply (validate_path_rejects_prefix_sibling default_policy example_os
             "clip.mp4" "/" "/" "/" "clip.mp4");
      try reflexivity; discriminate.
Defined.

(** X15. A candidate whose canonical final component is the built-in
    default template, with its placeholder extension still unexpanded, is
    never accepted when an allow-list is configured that does not list
    the placeholder itself: the allow-list step takes [%(ext)s] for the
    extension. *)
Theorem validate_path_rejects_unexpanded_template (self : PathValidator)
    (os : OS) (path base_dir : string) :
  allowed_extensions self ≠ ∅ ->
  "%(ext)s" ∉ allowed_extensions self ->
  (forall base n,
     expanduser os base_dir = Some base ->
     realpath os (join base path) = Some n ->
     basename n = "%(title)s.%(ext)s") ->
  forall p, validate_path self os path base_dir <> Accepted p.
Proof.
  intros Hne Hout Hb p H.
  pose proof (validate_path_accepted_inv _ _ _ _ _ H) as Hp.
  pose proof Hp as (_ & _ & base & He & Hn & _). apply (Hb _ _ He) in Hn.
  rewrite (validate_path_after_containment _ _ _ _ _ Hp) in H.
  cbv zeta in H. rewrite Hn in H.
  destruct (_ <? _)%Z; [done|].
  rewrite (bool_decide_eq_true_2 _ Hne) in H.
  change (extension "%(title)s.%(ext)s") with "%(ext)s" in H.
  by rewrite (bool_decide_eq_true_2 _ Hout) in H.
Qed.

Lemma validate_path_rejects_unexpanded_template_witness :
  (allowed_extensions default_policy ≠ ∅
   /\ ("%(ext)s" ∉ allowed_extensions default_policy)
   /\ (forall base n,
         expanduser example_os "/tmp/dl" = Some base ->
         realpath example_os (join base "%(title)s.%(ext)s") = Some n ->
         basename n = "%(title)s.%(ext)s"))
  /\ forall p, validate_path default_policy example_os
                 "%(title)s.%(ext)s" "/tmp/dl" <> Accepted p.
Proof.
  assert (Hne : allowed_extensions default_policy ≠ ∅) by decide_by_compute.
  assert (Hout : "%(ext)s" ∉ allowed_extensions default_policy)
    by decide_by_compute.
  assert (Hb : forall base n,
                 expanduser example_os "/tmp/dl" = Some base ->
                 realpath example_os (join base "%(title)s.%(ext)s") = Some n ->
                 basename n = "%(title)s.%(ext)s").
  { intros base n He Hn. vm_compute in He. injection He as <-.
    vm_compute in Hn. injection Hn as <-. reflexivity. }
  split; [by repeat split|].
  apply (validate_path_rejects_unexpanded_template default_policy example_os
           "%(title)s.%(ext)s" "/tmp/dl" Hne Hout Hb).
Defined.

End Acceptance.

(** ** The location dictionary *)

Section LocationDictionary.
Import PyStr PosixPath Locations.

Lemma build_location_fields (os : OS) (p expanded : string) :
  original (build_location os p expanded) = p
  /\ path (build_location os p expanded) = expanded
  /\ writable (build_location os p expanded) = recorded_writable os expanded.
Proof.
  unfold build_location, recorded_writable.
  destruct (makedirs os expanded); [done|].
  by destruct (access_w os expanded).
Qed.

(** X16. For a configuration that maps location ids to strings on which
    [os.path.expanduser] returns, [_build_locations] records every
    configured id and no other. The entry of an id keeps the configured
    string, holds its tilde-expanded path, and is marked writable exactly
    when the directory could be created and is writable: a location that
    fails there is kept, marked not writable, not dropped. *)
Theorem build_locations_records_all (os : OS) (self : LocationManager)
    (m : gmap string Value) :
  Configured self m ->
  Expandable os m ->
  exists locations,
    _build_locations os self = Ok locations
    /\ dom locations = dom m
    /\ forall location_id p,
         m !! location_id = Some (VStr p) ->
         exists location expanded,
           expanduser os p = Some expanded
           /\ locations !! location_id = Some location
           /\ original location = p
           /\ path location = expanded
           /\ writable location = recorded_writable os expanded.
Proof.
  intros Hc He. exists (omap (location_of os) m).
  split; [by apply build_locations_configured|]. split.
  - destruct Hc as (_ & Hm & _). apply set_eq. intros k.
    rewrite !elem_of_dom, lookup_omap.
    destruct (m !! k) as [v|] eqn:Hk; simpl.
    + specialize (Hm _ _ Hk). simpl in Hm.
      destruct v as [|p| | | |]; try done. simpl.
      destruct (He _ _ Hk) as [e ->]. simpl. split; by eexists.
    + split; by intros [? ?].
  - intros k p Hk. destruct (He _ _ Hk) as [e Hx].
    exists (build_location os p e), e. split; [done|].
    rewrite lookup_omap, Hk. simpl. rewrite Hx. simpl.
    split; [done|]. apply build_location_fields.
Qed.

Lemma build_locations_records_all_witness :
  (Configured tmp_dl_manager {["default" := VStr "/tmp/dl"]}
   /\ Expandable readonly_os {["default" := VStr "/tmp/dl"]})
  /\ exists locations,
       _build_locations readonly_os tmp_dl_manager = Ok locations
       /\ dom locations = dom ({["default" := VStr "/tmp/dl"]} : gmap string Value)
       /\ forall location_id p,
            ({["default" := VStr "/tmp/dl"]} : gmap string Value) !! location_id
              = Some (VStr p) ->
            exists location expanded,
              expanduser readonly_os p = Some expanded
              /\ locations !! location_id = Some location
              /\ original location = p
              /\ path location = expanded
              /\ writable location = recorded_writable readonly_os expanded.
Proof.
  split; [split; [exact tmp_dl_configured|
                  exact (tmp_dl_expandable readonly_os eq_refl)]|].
  apply (build_locations_records_all readonly_os tmp_dl_manager
           {["default" := VStr "/tmp/dl"]} tmp_dl_configured
           (tmp_dl_expandable readonly_os eq_refl)).
Defined.

Lemma get_locations_raises (os : OS) (self : LocationManager) (e : Exn) :
  _locations_cache self = None ->
  _build_locations os self = Raise e ->
  forall location_id relative_path filename_template,
    construct_download_path os location_id relative_path filename_template self
    = (Raise e, self).
Proof.
  intros Hc Hb location_id r t.
  unfold construct_download_path, validate_location, bind, get_locations.
  by rewrite Hc, Hb.
Qed.

Lemma build_loop_first_fault (os : OS) (good : list (string * Value))
    (key : string) (v : Value) (rest : list (string * Value))
    (acc : gmap string Location) :
  Forall (fun kv => is_Some (location_of os kv.2)) good ->
  location_of os v = None ->
  build_loop os (good ++ (key, v) :: rest)%list acc
  = Raise (if is_str v then ValueError else TypeError).
Proof.
  intros Hg Hv. revert acc.
  induction Hg as [|[k0 v0] good [l Hl] _ IH]; intros acc; simpl.
  - destruct v as [|p| | | |]; try done. simpl in Hv.
    by destruct (expanduser os p).
  - simpl in Hl. destruct v0 as [|p| | | |]; try done. simpl in Hl.
    destruct (expanduser os p); [apply IH|done].
Qed.

(** X17. A configuration the locations cannot be built from is not
    answered with a rejection. On a manager that has not built its
    locations yet, a [download_locations] value that is no mapping makes
    every call of [construct_download_path] raise AttributeError.
    Otherwise the first configured item, in the order of the dictionary,
    that is no string or cannot be expanded decides: the call raises
    TypeError for a value that is no string and ValueError for a string
    [os.path.expanduser] raises on. The cache stays empty. *)
Theorem construct_download_path_raises_on_ill_typed (os : OS)
    (self : LocationManager) (location_id : string)
    (relative_path filename_template : option string) :
  _locations_cache self = None ->
  (is_dict (SecureConfigManager.get (config self) "download_locations" (VDict ∅))
     = false ->
   construct_download_path os location_id relative_path filename_template self
   = (Raise AttributeError, self))
  /\ (forall m good key v rest,
        SecureConfigManager.get (config self) "download_locations" (VDict ∅)
          = VDict m ->
        items (configured_order self) m = (good ++ (key, v) :: rest)%list ->
        Forall (fun kv => is_Some (location_of os kv.2)) good ->
        location_of os v = None ->
        construct_download_path os location_id relative_path filename_template
          self
        = (Raise (if is_str v then ValueError else TypeError), self)).
Proof.
  intros Hc. split.
  - intros Hd. apply get_locations_raises; [done|].
    unfold _build_locations.
    by destruct (SecureConfigManager.get _ _ _).
  - intros m good key v rest Hg Hi Hgood Hv.
    apply get_locations_raises; [done|].
    unfold _build_locations. rewrite Hg, Hi.
    by apply build_loop_first_fault.
Qed.

Lemma construct_download_path_raises_on_ill_typed_witness :
  _locations_cache ill_typed_manager = None
  /\ construct_download_path example_os "default" None (Some "clip.mp4")
       ill_typed_manager
     = (Raise TypeError, ill_typed_manager)
  /\ construct_download_path example_os "default" None (Some "clip.mp4")
       unexpandable_manager
     = (Raise ValueError, unexpandable_manager).
Proof.
  split; [reflexivity|]. split.
  - apply (proj2 (construct_download_path_raises_on_ill_typed example_os
                    ill_typed_manager "default" None (Some "clip.mp4") eq_refl)
             {["default" := VInt 5]} [] "default" (VInt 5) []);
      [vm_compute; reflexivity|vm_compute; reflexivity|constructor
      |reflexivity].
  - apply (proj2 (construct_download_path_raises_on_ill_typed example_os
                    unexpandable_manager "default" None (Some "clip.mp4")
                    eq_refl)
             {["default" := VStr unexpandable_dir]} [] "default"
             (VStr unexpandable_dir) []);
      [vm_compute; reflexivity|vm_compute; reflexivity|constructor
      |vm_compute; reflexivity].
Defined.

(** X18. The locations are built once. After a call of [get_locations]
    has returned a dictionary, every later call returns that same
    dictionary and leaves the manager as it is, whatever has become of the
    file system in between. *)
Theorem get_locations_cached (os1 os2 : OS) (self self1 : LocationManager)
    (locations : gmap string Location) :
  get_locations os1 self = (Ok locations, self1) ->
  get_locations os2 self1 = (Ok locations, self1).
Proof.
  unfold get_locations. destruct (_locations_cache self) as [l|] eqn:Hc.
  - intros [= <- <-]. by rewrite Hc.
  - destruct (_build_locations os1 self); [|done]. by intros [= <- <-].
Qed.

Lemma get_locations_cached_witness :
  get_locations example_os tmp_dl_manager
    = (Ok (omap (location_of example_os) {["default" := VStr "/tmp/dl"]}),
       {| config := tmp_dl_config; configured_order := ["default"];
          validator := default_policy;
          _locations_cache :=
            Some (omap (location_of example_os)
                       {["default" := VStr "/tmp/dl"]}) |})
  /\ get_locations readonly_os
       {| config := tmp_dl_config; configured_order := ["default"];
          validator := default_policy;
          _locations_cache :=
            Some (omap (location_of example_os)
                       {["default" := VStr "/tmp/dl"]}) |}
     = (Ok (omap (location_of example_os) {["default" := VStr "/tmp/dl"]}),
        {| config := tmp_dl_config; configured_order := ["default"];
           validator := default_policy;
           _locations_cache :=
             Some (omap (location_of example_os)
                        {["default" := VStr "/tmp/dl"]}) |}).
Proof.
  assert (H : get_locations example_os tmp_dl_manager
    = (Ok (omap (location_of example_os) {["default" := VStr "/tmp/dl"]}),
       {| config := tmp_dl_config; configured_order := ["default"];
          validator := default_policy;
          _locations_cache :=
            Some (omap (location_of example_os)
                       {["default" := VStr "/tmp/dl"]}) |})).
  { apply (get_locations_configured example_os tmp_dl_manager
             {["default" := VStr "/tmp/dl"]} tmp_dl_configured
             (tmp_dl_expandable example_os eq_refl)). }
  split; [exact H|].
  apply (get_locations_cached example_os readonly_os tmp_dl_manager _ _ H).
Defined.

(** X19. When the location dictionary can be built, a configured
    location that is recorded as not writable is answered with
    LocationNotWritable, whatever the relative path and the filename
    template are; nothing is validated. *)
Theorem construct_download_path_not_writable (os : OS) (self : LocationManager)
    (m : gmap string Value) (location_id p expanded : string)
    (relative_path filename_template : option string) :
  Configured self m ->
  Expandable os m ->
  _locations_cache self = None ->
  m !! location_id = Some (VStr p) ->
  expanduser os p = Some expanded ->
  recorded_writable os expanded = false ->
  (construct_download_path os location_id relative_path filename_template
     self).1
  = Ok (Rejected (LocationNotWritable location_id)).
Proof.
  intros Hc He Hn Hk Hx Hw.
  unfold construct_download_path, validate_location, bind.
  rewrite (get_locations_configured _ _ _ Hc He).
  unfold locations_of. rewrite Hn, lookup_omap, Hk. simpl. rewrite Hx. simpl.
  destruct (build_location_fields os p expanded) as (_ & _ & ->).
  by rewrite Hw.
Qed.

Lemma construct_download_path_not_writable_witness :
  (Configured tmp_dl_manager {["default" := VStr "/tmp/dl"]}
   /\ Expandable readonly_os {["default" := VStr "/tmp/dl"]}
   /\ _locations_cache tmp_dl_manager = None
   /\ ({["default" := VStr "/tmp/dl"]} : gmap string Value) !! "default"
      = Some (VStr "/tmp/dl")
   /\ expanduser readonly_os "/tmp/dl" = Some "/tmp/dl"
   /\ recorded_writable readonly_os "/tmp/dl" = false)
  /\ (construct_download_path readonly_os "default" (Some "clips")
        (Some "movie.mp4") tmp_dl_manager).1
     = Ok (Rejected (LocationNotWritable "default")).
Proof.
  assert (Hk : ({["default" := VStr "/tmp/dl"]} : gmap string Value)
                 !! "default" = Some (VStr "/tmp/dl"))
    by apply lookup_singleton_eq.
  split; [split; [exact tmp_dl_configured|
                  split; [exact (tmp_dl_expandable readonly_os eq_refl)|
                          by repeat split]]|].
  apply (construct_download_path_not_writable readonly_os tmp_dl_manager
           {["default" := VStr "/tmp/dl"]} "default" "/tmp/dl" "/tmp/dl"
           (Some "clips") (Some "movie.mp4") tmp_dl_configured
           (tmp_dl_expandable readonly_os eq_refl) eq_refl Hk);
    reflexivity.
Defined.

(** X20. End to end: a path that [construct_download_path] accepts lies
    in the canonical directory of the location asked for. The manager
    then holds an entry for the location id, that entry is writable, and
    the accepted path is the canonical form of the entry's directory or
    continues it after a separator. *)
Theorem construct_download_path_accepts_inside (os : OS)
    (self self' : LocationManager) (location_id : string)
    (relative_path filename_template : option string) (accepted : string) :
  construct_download_path os location_id relative_path filename_template self
    = (Ok (Accepted accepted), self') ->
  exists locations location base base_real,
    _locations_cache self' = Some locations
    /\ locations !! location_id = Some location
    /\ writable location = true
    /\ expanduser os (path location) = Some base
    /\ realpath os base = Some base_real
    /\ (accepted = base_real
        \/ exists rest, accepted = base_real ++ "/" ++ rest).
Proof.
  unfold construct_download_path, validate_location, bind.
  destruct (get_locations os self) as [[locations|e] self1] eqn:Hg; [|done].
  assert (Hcache : _locations_cache self1 = Some locations).
  { unfold get_locations in Hg.
    destruct (_locations_cache self) as [l|] eqn:Hc.
    - by injection Hg as <- <-.
    - destruct (_build_locations os self); [|done]. by injection Hg as <- <-. }
  destruct (locations !! location_id) as [location|] eqn:Hl; simpl; [|done].
  destruct (writable location) eqn:Hw; simpl; [|done].
  destruct (full_relative self1 relative_path filename_template) as [c|];
    [|done].
  intros [= Hv <-].
  apply validate_path_accepted_inv in Hv
    as (_ & _ & base & He & _ & b & Hb & Hin).
  exists locations, location, base, b. repeat split; try done.
  destruct Hin as [Hs | ->]; [right|by left].
  apply startswith_inv in Hs as [rest ->]. exists rest. apply append_assoc.
Qed.

Lemma construct_download_path_accepts_inside_witness :
  construct_download_path example_os "default" (Some "clips")
    (Some "movie.mp4") tmp_dl_manager
  = (Ok (Accepted "/tmp/dl/clips/movie.mp4"),
     {| config := tmp_dl_config; configured_order := ["default"];
        validator := default_policy;
        _locations_cache :=
          Some (omap (location_of example_os)
                     {["default" := VStr "/tmp/dl"]}) |})
  /\ exists locations location base base_real,
       Some (omap (location_of example_os)
                  ({["default" := VStr "/tmp/dl"]} : gmap string Value))
         = Some locations
       /\ locations !! "default" = Some location
       /\ writable location = true
       /\ expanduser example_os (path location) = Some base
       /\ realpath example_os base = Some base_real
       /\ ("/tmp/dl/clips/movie.mp4" = base_real
           \/ exists rest, "/tmp/dl/clips/movie.mp4" = base_real ++ "/" ++ rest).
Proof.
  assert (H : construct_download_path example_os "default" (Some "clips")
                (Some "movie.mp4") tmp_dl_manager
              = (Ok (Accepted "/tmp/dl/clips/movie.mp4"),
                 {| config := tmp_dl_config; configured_order := ["default"];
                    validator := default_policy;
                    _locations_cache :=
                      Some (omap (location_of example_os)
                                 {["default" := VStr "/tmp/dl"]}) |})).
  { unfold construct_download_path, validate_location, bind.
    rewrite (get_locations_configured _ _ _ tmp_dl_configured
               (tmp_dl_expandable example_os eq_refl)).
    reflexivity. }
  split; [exact H|].
  apply (construct_download_path_accepts_inside example_os tmp_dl_manager _
           "default" (Some "clips") (Some "movie.mp4")
           "/tmp/dl/clips/movie.mp4" H).
Defined.

Lemma full_relative_empty (self : LocationManager)
    (relative_path filename_template : option string) :
  full_relative self (Some "") filename_template
    = full_relative self None filename_template
  /\ full_relative self relative_path (Some "")
     = full_relative self relative_path None.
Proof.
  split; [reflexivity|]. unfold full_relative.
  change (truthy (Some "")) with false. change (truthy None) with false.
  by destruct (truthy relative_path).
Qed.

(** X21. An empty string for the relative path or for the filename
    template counts as an argument that was not given: the call returns
    what it returns without that argument and leaves the manager in the
    same state. *)
Theorem construct_download_path_empty_arguments (os : OS)
    (self : LocationManager) (location_id : string)
    (relative_path filename_template : option string) :
  construct_download_path os location_id (Some "") filename_template self
    = construct_download_path os location_id None filename_template self
  /\ construct_download_path os location_id relative_path (Some "") self
     = construct_download_path os location_id relative_path None self.
Proof.
  unfold construct_download_path, bind.
  destruct (validate_location os location_id self) as [[[base|reason]|e] self1];
    cbv beta iota; [|split; reflexivity|split; reflexivity].
  destruct (full_relative_empty self1 relative_path filename_template)
    as [E1 E2].
  rewrite E1, E2. split; reflexivity.
Qed.

End LocationDictionary.

(** ** A "security" entry that is no table *)

Section ScalarSecurity.
Import SecureConfigManager.

Lemma get_merged_below_leaf (base update : gmap string Value)
    (path : string) (default v : Value) (key key' : string)
    (rest : list string) :
  PyStr.split "."%char path = key :: key' :: rest ->
  update !! key = Some v -> is_dict v = false ->
  get (VDict (_deep_merge base update)) path default = default.
Proof.
  intros Hs Hk Hv. unfold get. rewrite Hs.
  change (get_keys (key :: key' :: rest) (VDict (_deep_merge base update)) default)
    with (match _deep_merge base update !! key with
          | Some t => get_keys (key' :: rest) t default
          | None => default
          end).
  rewrite deep_merge_lookup, Hk.
  destruct v; try discriminate Hv; by destruct (base !! key) as [[]|].
Qed.

(** X22. The policy fails open on a malformed "security" entry: when the
    user file gives "security" a value that is no table, that value
    replaces the whole built-in table, the three policy lookups fall back
    to their call-site defaults, and the validator is built with an empty
    allow-list (no restriction on extensions), maximum 255 and traversal
    blocking on. *)
Theorem load_config_scalar_security (user_config : gmap string Value)
    (v : Value) :
  user_config !! "security" = Some v ->
  is_dict v = false ->
  Validator.init (_load_config (Parsed user_config)) = Some fallback_policy.
Proof.
  intros Hk Hv. unfold Validator.init, _load_config.
  rewrite (get_merged_below_leaf default_dict user_config
             "security.allowed_extensions" (VList []) v
             "security" "allowed_extensions" [] eq_refl Hk Hv).
  rewrite (get_merged_below_leaf default_dict user_config
             "security.max_filename_length" (VInt 255) v
             "security" "max_filename_length" [] eq_refl Hk Hv).
  rewrite (get_merged_below_leaf default_dict user_config
             "security.block_path_traversal" (VBool true) v
             "security" "block_path_traversal" [] eq_refl Hk Hv).
  reflexivity.
Qed.

Lemma load_config_scalar_security_witness :
  ({["security" := VBool false]} : gmap string Value) !! "security"
    = Some (VBool false)
  /\ is_dict (VBool false) = false
  /\ Validator.init (_load_config (Parsed {["security" := VBool false]}))
     = Some fallback_policy.
Proof.
  assert (Hk : ({["security" := VBool false]} : gmap string Value) !! "security"
               = Some (VBool false)) by apply lookup_singleton_eq.
  split; [exact Hk|]. split; [reflexivity|].
  apply (load_config_scalar_security {["security" := VBool false]}
           (VBool false) Hk).
  reflexivity.
Defined.

End ScalarSecurity.

(** ** Sanitizing and joining *)

Section SanitizeJoin.
Import PyStr PosixPath Validator Locations.

Lemma sanitize_slash_fixed c : Ascii.eqb (sanitize_char c) "/" = Ascii.eqb c "/".
Proof. destruct c as [[] [] [] [] [] [] [] []]; reflexivity. Qed.

Lemma sanitize_idem (t : string) :
  sanitize_template_vars (sanitize_template_vars t) = sanitize_template_vars t.
Proof.
  induction t as [|c t IH]; [done|].
  by rewrite !sanitize_cons, sanitize_char_idem, IH.
Qed.

Lemma sanitize_substring (n m : nat) (s : string) :
  sanitize_template_vars (substring n m s)
  = substring n m (sanitize_template_vars s).
Proof.
  revert n m. induction s as [|c s IH]; intros n m.
  - by destruct n, m.
  - rewrite sanitize_cons. destruct n as [|n]; simpl.
    + destruct m as [|m]; [done|]. by rewrite sanitize_cons, IH.
    + apply IH.
Qed.

Lemma sanitize_eqb_empty (s : string) :
  String.eqb (sanitize_template_vars s) "" = String.eqb s "".
Proof. destruct s; [done|]. by rewrite sanitize_cons. Qed.

Lemma sanitize_eqb_slash (s : string) :
  String.eqb (sanitize_template_vars s) "/" = String.eqb s "/".
Proof.
  destruct s as [|c s]; [done|]. rewrite sanitize_cons. simpl.
  by rewrite sanitize_slash_fixed, sanitize_eqb_empty.
Qed.

Lemma sanitize_endswith_slash (s : string) :
  endswith (sanitize_template_vars s) "/" = endswith s "/".
Proof.
  unfold endswith.
  by rewrite sanitize_length, <- sanitize_substring, sanitize_eqb_slash.
Qed.

Lemma sanitize_startswith_slash (s : string) :
  startswith (sanitize_template_vars s) "/" = startswith s "/".
Proof.
  apply (startswith_mapped sanitize_template_vars sanitize_char);
    [done|apply sanitize_cons|].
  split; [apply sanitize_fixes_slash|done].
Qed.

Lemma sanitize_join (a b : string) :
  sanitize_template_vars (join a b)
  = join (sanitize_template_vars a) (sanitize_template_vars b).
Proof.
  unfold join.
  rewrite sanitize_startswith_slash, sanitize_eqb_empty, sanitize_endswith_slash.
  destruct (startswith b "/"); [done|].
  destruct (String.eqb a "" || endswith a "/").
  - apply sanitize_app.
  - by rewrite !sanitize_app.
Qed.

(** X23. Sanitizing commutes with [os.path.join]: the sanitized join of a
    relative path and a template is the join of the two sanitized parts,
    so the separator that [join] inserts and the part it keeps are the
    same before and after sanitizing. *)
Theorem sanitize_template_vars_join (a b : string) :
  sanitize_template_vars (join a b)
  = join (sanitize_template_vars a) (sanitize_template_vars b).
Proof. apply sanitize_join. Qed.

Lemma truthy_sanitized (o : option string) :
  truthy (sanitize_template_vars <$> o) = truthy o.
Proof.
  destruct o as [s|]; [|done]. simpl. by rewrite sanitize_eqb_empty.
Qed.

Lemma str_of_sanitized (o : option string) :
  str_of (sanitize_template_vars <$> o) = sanitize_template_vars (str_of o).
Proof. by destruct o. Qed.

Lemma full_relative_sanitized (self : LocationManager)
    (r t : option string) :
  match full_relative self (sanitize_template_vars <$> r)
                           (sanitize_template_vars <$> t),
        full_relative self r t with
  | Ok c1, Ok c2 => sanitize_template_vars c1 = sanitize_template_vars c2
  | Raise e1, Raise e2 => e1 = e2
  | _, _ => False
  end.
Proof.
  unfold full_relative. rewrite !truthy_sanitized, !str_of_sanitized.
  destruct (truthy r), (truthy t).
  - by rewrite <- sanitize_join, sanitize_idem.
  - apply sanitize_idem.
  - apply sanitize_idem.
  - by destruct (SecureConfigManager.get _ _ _).
Qed.

(** X24. Sanitizing the arguments beforehand changes nothing:
    [construct_download_path] returns the same result, and leaves the
    manager in the same state, for a relative path and a template as for
    their sanitized forms. *)
Theorem construct_download_path_presanitized (os : OS)
    (self : LocationManager) (location_id : string)
    (relative_path filename_template : option string) :
  construct_download_path os location_id
    (sanitize_template_vars <$> relative_path)
    (sanitize_template_vars <$> filename_template) self
  = construct_download_path os location_id relative_path filename_template
      self.
Proof.
  unfold construct_download_path, bind.
  destruct (validate_location os location_id self) as [[[base|reason]|e] self1];
    cbv beta iota; [|reflexivity|reflexivity].
  pose proof (full_relative_sanitized self1 relative_path filename_template)
    as H.
  destruct (full_relative self1 (sanitize_template_vars <$> relative_path)
              (sanitize_template_vars <$> filename_template)) as [c1|e1];
    destruct (full_relative self1 relative_path filename_template) as [c2|e2];
    try contradiction.
  - by rewrite H.
  - by rewrite H.
Qed.

End SanitizeJoin.

(** ** Collected media URLs *)

Section CollectedUrls.
Import WebpageAnalyzer.
Variable findall : string -> string -> list Match.
Variable urljoin : string -> string -> string.

Lemma append_new_elem (urls : list string) (url x : string) :
  x ∈ append_new urls url <-> x ∈ urls \/ x = url.
Proof.
  unfold append_new. case_bool_decide as Hin.
  - split; [by left|]. by intros [?| ->].
  - rewrite elem_of_app, list_elem_of_singleton. done.
Qed.

Lemma append_new_nodup (urls : list string) (url : string) :
  NoDup urls -> NoDup (append_new urls url).
Proof.
  intros Hn. unfold append_new. case_bool_decide as Hin; [done|].
  apply NoDup_app. split; [done|]. split.
  - intros x Hx Hx'. apply list_elem_of_singleton in Hx' as ->. done.
  - apply NoDup_singleton.
Qed.

Lemma collect_matches_nodup (base_url : string) (matches : list Match)
    (urls : list string) :
  NoDup urls -> NoDup (collect_matches urljoin base_url urls matches).
Proof.
  revert urls. induction matches as [|m matches IH]; intros urls Hn; [done|].
  simpl. by apply IH, append_new_nodup.
Qed.

Lemma collect_matches_elem (base_url : string) (matches : list Match)
    (urls : list string) (x : string) :
  x ∈ collect_matches urljoin base_url urls matches
  <-> x ∈ urls
      \/ exists m, m ∈ matches /\ x = absolute_url urljoin base_url (url_of m).
Proof.
  revert urls. induction matches as [|m matches IH]; intros urls; simpl.
  - split; [by left|]. intros [?|(m & Hm & _)]; [done|].
    by apply elem_of_nil in Hm.
  - rewrite IH, append_new_elem. split.
    + intros [[?| ->]|(m' & Hm' & ->)]; [by left| |].
      * right. exists m. split; [apply list_elem_of_here|done].
      * right. exists m'. split; [by apply list_elem_of_further|done].
    + intros [?|(m' & Hm' & ->)]; [by left; left|].
      apply elem_of_cons in Hm' as [->|Hm']; [by left; right|].
      right. by exists m'.
Qed.

Lemma extract_from_nodup (html_content base_url : string)
    (pattern_list : list string) (urls : list string) :
  NoDup urls ->
  NoDup (fold_left (fun urls pattern =>
                      collect_matches urljoin base_url urls
                        (findall pattern html_content))
                   pattern_list urls).
Proof.
  revert urls. induction pattern_list as [|pattern l IH]; intros urls Hn;
    [done|].
  simpl. by apply IH, collect_matches_nodup.
Qed.

Lemma extract_from_elem (html_content base_url : string)
    (pattern_list : list string) (urls : list string) (x : string) :
  x ∈ fold_left (fun urls pattern =>
                   collect_matches urljoin base_url urls
                     (findall pattern html_content))
                pattern_list urls
  <-> x ∈ urls
      \/ exists pattern m,
           pattern ∈ pattern_list /\ m ∈ findall pattern html_content
           /\ x = absolute_url urljoin base_url (url_of m).
Proof.
  revert urls. induction pattern_list as [|pattern l IH]; intros urls; simpl.
  - split; [by left|]. intros [?|(p & m & Hp & _)]; [done|].
    by apply elem_of_nil in Hp.
  - rewrite IH, collect_matches_elem. split.
    + intros [[?|(m & Hm & ->)]|(p & m & Hp & Hm & ->)]; [by left| |].
      * right. exists pattern, m. split; [apply list_elem_of_here|done].
      * right. exists p, m. split; [by apply list_elem_of_further|done].
    + intros [?|(p & m & Hp & Hm & ->)]; [by left; left|].
      apply elem_of_cons in Hp as [->|Hp].
      * left; right. by exists m.
      * right. by exists p, m.
Qed.


End CollectedUrls.
